(** * IndexedDBUtil: a promise façade over the browser's IndexedDB engine

    The development embeds [src/IndexedDBUtil.ts].  The TypeScript file is
    a thin layer of promises over the IndexedDB engine of the browser, so the
    embedding has two parts:

    - an executable model of the part of the engine the file talks to
      (databases with a version and object stores, connections, open
      requests with their [success], [error] and [upgradeneeded] events,
      transactions with their requests and their [complete] event), written
      after the algorithms of the W3C Indexed Database API;
    - the functions of the file itself ([openDB], [deleteDB],
      [getCurrentDBVersion], [addObjectStore], [transactionPromise], [set],
      [getSpecific], [getAll], [update], [remove], [clear]), written over
      that model with the handlers the source attaches and no others.

    The event loop is collapsed: an operation is run until no event of its
    own is left to deliver, and yields the final state of the promise it
    returned together with the final state of the engine.  A promise that is
    still [Pending] at that point is one that nothing will ever settle.
    Operations run one after the other; interleavings of concurrent calls
    are not modelled.

    What the engine does on its own account (a request that fails for lack
    of space or on an I/O error) is an input: the engine carries the list of
    the faults its next requests will meet.  Left out of the model: keys
    other than integers and strings, indexes, key paths and key generators
    (the stores of this program have none), a commit that fails, and the
    closing of a connection by the garbage collector. *)

From stdpp Require Import base option list strings gmap sorting.
From Stdlib Require Import ZArith.

Set Warnings "-register-all".
Local Open Scope Z_scope.

(** ** JavaScript values *)

(** The payloads ([item: T]) are opaque to the source; a small universe of
    JavaScript values stands for them.  Numbers are restricted to integers.
    [JFunction] is the representative of the values the structured clone
    algorithm refuses. *)
Inductive JsValue : Type :=
| JUndefined
| JNull
| JBool (b : bool)
| JNumber (n : Z)
| JString (s : string)
| JArray (items : list JsValue)
| JObject (fields : list (string * JsValue))
| JFunction.

(** What the structured clone algorithm accepts.  A clone of an accepted
    value is deep-equal to it, so storing keeps the value as it is. *)
Fixpoint serializable (v : JsValue) : bool :=
  match v with
  | JArray items => forallb serializable items
  | JObject fields => forallb (λ f, serializable (snd f)) fields
  | JFunction => false
  | _ => true
  end.

(** [IDBValidKey], restricted to numbers and strings. *)
Inductive IDBValidKey : Type :=
| KNumber (n : Z)
| KString (s : string).

#[global] Instance IDBValidKey_eq_dec : EqDecision IDBValidKey.
Proof. solve_decision. Defined.

#[global] Instance IDBValidKey_countable : Countable IDBValidKey.
Proof.
  refine (inj_countable'
            (λ k, match k with KNumber n => inl n | KString s => inr s end)
            (λ x, match x with inl n => KNumber n | inr s => KString s end) _).
  by intros [].
Defined.

(** A key as the result value of a request. *)
Definition key_value (k : IDBValidKey) : JsValue :=
  match k with
  | KNumber n => JNumber n
  | KString s => JString s
  end.

(** The engine's order on keys: numbers before strings. *)
Definition key_leb (a b : IDBValidKey) : bool :=
  match a, b with
  | KNumber m, KNumber n => m <=? n
  | KNumber _, KString _ => true
  | KString _, KNumber _ => false
  | KString s, KString t => String.leb s t
  end.

Definition record_le (a b : IDBValidKey * JsValue) : Prop := key_leb a.1 b.1 = true.

#[global] Instance record_le_dec a b : Decision (record_le a b).
Proof. unfold record_le. apply _. Defined.

(** ** Errors and promises *)

Inductive DOMExceptionName : Type :=
| VersionError
| NotFoundError
| ConstraintError
| DataCloneError
| ReadOnlyError
| InvalidStateError
| AbortError
| QuotaExceededError
| UnknownError.

Inductive JsError : Type :=
| Error (message : string)
| TypeError
| ReferenceError
| DOMException (name : DOMExceptionName).

(** The state of a promise once the event loop is idle. *)
Inductive Promise (A : Type) : Type :=
| Pending
| Resolved (value : A)
| Rejected (cause : JsError).
Arguments Pending {A}.
Arguments Resolved {A} value.
Arguments Rejected {A} cause.

(** [resolve] and [reject] settle a pending promise and leave a settled one
    as it is. *)
Definition resolve {A} (a : A) (p : Promise A) : Promise A :=
  match p with Pending => Resolved a | _ => p end.

Definition reject {A} (c : JsError) (p : Promise A) : Promise A :=
  match p with Pending => Rejected c | _ => p end.

(** ** The engine *)

(** The records of one object store, and the object stores of a database. *)
Abbreviation Records := (gmap IDBValidKey JsValue).
Abbreviation Schema := (gmap string (gmap IDBValidKey JsValue)).

Record Database : Type := {
  version : Z;
  objectStores : Schema;
}.

(** A connection ([IDBDatabase]) as the script holds it. *)
Record IDBDatabase : Type := {
  conn_id : nat;
  conn_name : string;
  conn_version : Z;
}.

(** The state of the engine.  [handles] has one entry per connection ever
    handed out, in order: the name of its database and the number of
    [close()] calls made on it.  [faults] is what the environment has in
    store for the requests to come, one entry per request in the order they
    are issued: [Some c] makes the request fail with [c]; past the end of the
    list nothing fails.  [supported] is ['indexedDB' in window]. *)
Record Engine : Type := {
  supported : bool;
  databases : gmap string Database;
  handles : list (string * nat);
  faults : list (option JsError);
}.

Definition set_databases (dbs : gmap string Database) (e : Engine) : Engine :=
  {| supported := supported e; databases := dbs;
     handles := handles e; faults := faults e |}.

Definition set_handles (hs : list (string * nat)) (e : Engine) : Engine :=
  {| supported := supported e; databases := databases e;
     handles := hs; faults := faults e |}.

Definition set_faults (fs : list (option JsError)) (e : Engine) : Engine :=
  {| supported := supported e; databases := databases e;
     handles := handles e; faults := fs |}.

(** The fault waiting for the next request, if any, and the engine once
    that request has met its fault or passed it. *)
Definition pending_fault (e : Engine) : option JsError := mjoin (head (faults e)).

Definition past_request (e : Engine) : Engine := set_faults (tail (faults e)) e.

(** The version of a database; [0] stands for a database that does not
    exist. *)
Definition stored_version (e : Engine) (name : string) : Z :=
  from_option version 0 (databases e !! name).

Definition stored_schema (e : Engine) (name : string) : Schema :=
  from_option objectStores ∅ (databases e !! name).

(** The records of a store, when the database and the store exist. *)
Definition stored_records (e : Engine) (name storeName : string) : option Records :=
  databases e !! name ≫= λ d, objectStores d !! storeName.

(** [close()] on a connection. *)
Definition close (db : IDBDatabase) (e : Engine) : Engine :=
  set_handles (alter (λ h, (h.1, S h.2)) (conn_id db) (handles e)) e.

(** How often [close()] was called on the connection with this number. *)
Definition close_count (e : Engine) (id : nat) : option nat :=
  snd <$> handles e !! id.

Definition is_open (name : string) (h : string * nat) : bool :=
  bool_decide (h.1 = name) && bool_decide (h.2 = 0%nat).

(** Is a connection to the database still open? *)
Definition has_open_connection (e : Engine) (name : string) : bool :=
  existsb (is_open name) (handles e).

(** Event delivery: a handler runs when one is attached. *)
Definition fire {X S} (handler : option (X → S → S)) (x : X) (s : S) : S :=
  match handler with
  | Some f => f x s
  | None => s
  end.

(** *** Opening a database *)

(** [db.objectStoreNames], [contains] and [createObjectStore], as the
    [upgradeneeded] handler sees them.  Creating a store under a name that is
    taken throws. *)
Definition objectStoreNames (s : Schema) : gset string := dom s.

Definition contains (names : gset string) (name : string) : bool :=
  bool_decide (name ∈ names).

Definition createObjectStore (name : string) (s : Schema) : JsError + Schema :=
  if contains (objectStoreNames s) name
  then inl (DOMException ConstraintError)
  else inr (<[name := ∅]> s).

(** An open request with the handlers attached to it.  The handlers of
    [success] and [error] act on the promise under construction and on the
    engine; the handler of [upgradeneeded] acts on the schema of the database
    being upgraded and may throw. *)
Record IDBOpenDBRequest (A : Type) : Type := {
  onsuccess : option (IDBDatabase → Promise A * Engine → Promise A * Engine);
  onerror : option (JsError → Promise A * Engine → Promise A * Engine);
  onupgradeneeded : option (Schema → JsError + Schema);
}.
Arguments onsuccess {A} _.
Arguments onerror {A} _.
Arguments onupgradeneeded {A} _.
Arguments Build_IDBOpenDBRequest {A} _ _ _.

Definition MAX_SAFE_INTEGER : Z := 2 ^ 53 - 1.

(** The connection is created and [success] is fired. *)
Definition connect {A} (name : string) (v : Z) (req : IDBOpenDBRequest A)
    (st : Promise A * Engine) : Promise A * Engine :=
  let db := {| conn_id := length (handles st.2); conn_name := name; conn_version := v |} in
  fire (onsuccess req) db (st.1, set_handles (handles st.2 ++ [(name, 0%nat)]) st.2).

(** The asynchronous part of [indexedDB.open].  Without a version the engine
    takes the stored one, or [1] for a database that does not exist.  A
    request below the stored version fails with [VersionError].  A request
    above it is an upgrade: it waits for every other connection to the
    database to close (no connection of this program listens to
    [versionchange], so an open one stays open and the request stays
    blocked), then sets the version and fires [upgradeneeded]; a handler that
    throws aborts the upgrade. *)
Definition open_request {A} (name : string) (v : option Z) (req : IDBOpenDBRequest A)
    (st : Promise A * Engine) : Promise A * Engine :=
  let e := past_request st.2 in
  match pending_fault st.2 with
  | Some c => fire (onerror req) c (st.1, e)
  | None =>
      let stored := stored_version e name in
      let requested := default (if stored =? 0 then 1 else stored) v in
      if requested <? stored then
        fire (onerror req) (DOMException VersionError) (st.1, e)
      else if stored <? requested then
        if has_open_connection e name then (st.1, e)
        else
          match from_option (λ f, f (stored_schema e name))
                            (inr (stored_schema e name)) (onupgradeneeded req) with
          | inl _ => fire (onerror req) (DOMException AbortError) (st.1, e)
          | inr s =>
              connect name requested req
                (st.1, set_databases
                         (<[name := {| version := requested; objectStores := s |}]>
                            (databases e)) e)
          end
      else connect name requested req (st.1, e)
  end.

(** The versions [indexedDB.open] takes: none, or an integer from [1] up to
    the largest the interface lets through. *)
Definition version_in_range (v : option Z) : bool :=
  match v with
  | None => true
  | Some n => (1 <=? n) && (n <=? MAX_SAFE_INTEGER)
  end.

(** [indexedDB.open(name, version)].  The call itself throws when the global
    is missing and when the version is not in the range the interface
    enforces. *)
Definition indexedDB_open {A} (name : string) (v : option Z) (req : IDBOpenDBRequest A)
    (st : Promise A * Engine) : JsError + Promise A * Engine :=
  if negb (supported st.2) then inl ReferenceError
  else if version_in_range v
  then inr (open_request name v req st)
  else inl TypeError.

(** A delete request with its handlers. *)
Record IDBDeleteRequest (A : Type) : Type := {
  del_onsuccess : option (JsValue → Promise A * Engine → Promise A * Engine);
  del_onerror : option (JsError → Promise A * Engine → Promise A * Engine);
}.
Arguments del_onsuccess {A} _.
Arguments del_onerror {A} _.
Arguments Build_IDBDeleteRequest {A} _ _.

(** [indexedDB.deleteDatabase(name)]: waits like an upgrade for the open
    connections, then removes the database; the result is [undefined]. *)
Definition indexedDB_deleteDatabase {A} (name : string) (req : IDBDeleteRequest A)
    (st : Promise A * Engine) : JsError + Promise A * Engine :=
  if negb (supported st.2) then inl ReferenceError
  else
    let e := past_request st.2 in
    inr match pending_fault st.2 with
        | Some c => fire (del_onerror req) c (st.1, e)
        | None =>
            if has_open_connection e name then (st.1, e)
            else fire (del_onsuccess req) JUndefined
                   (st.1, set_databases (delete name (databases e)) e)
        end.

(** *** Transactions *)

Inductive IDBTransactionMode : Type :=
| readonly
| readwrite.

(** The requests an object store takes. *)
Inductive StoreRequest : Type :=
| Put (item : JsValue) (key : IDBValidKey)
| Get (key : IDBValidKey)
| GetAll
| Delete (key : IDBValidKey)
| Clear.

(** The object store handle of a transaction and its methods. *)
Record IDBObjectStore : Type := { store_name : string }.

Definition put (store : IDBObjectStore) (item : JsValue) (key : IDBValidKey) : StoreRequest :=
  Put item key.
Definition get (store : IDBObjectStore) (key : IDBValidKey) : StoreRequest := Get key.
Definition getAll_ (store : IDBObjectStore) : StoreRequest := GetAll.
Definition delete_ (store : IDBObjectStore) (key : IDBValidKey) : StoreRequest := Delete key.
Definition clear_ (store : IDBObjectStore) : StoreRequest := Clear.

(** What runs inside a transaction: settling the promise, or issuing a
    request with the handlers attached to it.  A handler is absent when the
    source attaches none; a handler that is present is the body the source
    gives it, which may issue the next request. *)
Inductive Handler : Type :=
| Resolve (value : JsValue)
| Reject (cause : JsError)
| Issue (request : StoreRequest)
        (success : option (JsValue → Handler))
        (error : option (JsError → Handler)).

(** The exception a store method throws instead of returning a request. *)
Definition violation (mode : IDBTransactionMode) (r : StoreRequest) : option JsError :=
  match r, mode with
  | (Put _ _ | Delete _ | Clear), readonly => Some (DOMException ReadOnlyError)
  | Put item _, readwrite =>
      if serializable item then None else Some (DOMException DataCloneError)
  | _, _ => None
  end.

(** The result of a request that succeeds, and the records after it.  A
    [get] of an absent key succeeds with [undefined]; [getAll] lists the
    values in the order of the keys. *)
Definition perform (r : StoreRequest) (recs : Records) : JsValue * Records :=
  match r with
  | Put item key => (key_value key, <[key := item]> recs)
  | Get key => (default JUndefined (recs !! key), recs)
  | GetAll => (JArray (merge_sort record_le (map_to_list recs)).*2, recs)
  | Delete key => (JUndefined, delete key recs)
  | Clear => (JUndefined, ∅)
  end.

(** A transaction under way: the records of its store as the transaction
    sees them, the faults ahead, the promise the handlers settle, and whether
    the transaction is still active ([false] once it has aborted). *)
Record IDBTransaction : Type := {
  tx_records : Records;
  tx_faults : list (option JsError);
  tx_promise : Promise JsValue;
  tx_active : bool;
}.

(** When a transaction aborts, a request placed by an error handler fails
    with [AbortError] in its turn. *)
Fixpoint abort_with (h : Handler) (p : Promise JsValue) : Promise JsValue :=
  match h with
  | Resolve v => resolve v p
  | Reject c => reject c p
  | Issue _ _ error =>
      match error with
      | Some f => abort_with (f (DOMException AbortError)) p
      | None => p
      end
  end.

(** Running a handler body inside an active transaction.  A store method
    that throws inside an event handler aborts the transaction and settles
    nothing.  A request that fails gets its [error] event; no handler of this
    program calls [preventDefault], so the transaction then aborts.  A request
    that succeeds gets its [success] event. *)
Fixpoint dispatch (mode : IDBTransactionMode) (h : Handler) (t : IDBTransaction)
    : IDBTransaction :=
  match h with
  | Resolve v =>
      {| tx_records := tx_records t; tx_faults := tx_faults t;
         tx_promise := resolve v (tx_promise t); tx_active := tx_active t |}
  | Reject c =>
      {| tx_records := tx_records t; tx_faults := tx_faults t;
         tx_promise := reject c (tx_promise t); tx_active := tx_active t |}
  | Issue r success error =>
      match violation mode r with
      | Some _ =>
          {| tx_records := tx_records t; tx_faults := tx_faults t;
             tx_promise := tx_promise t; tx_active := false |}
      | None =>
          match tx_faults t with
          | Some c :: fs =>
              {| tx_records := tx_records t; tx_faults := fs;
                 tx_promise :=
                   match error with
                   | Some f => abort_with (f c) (tx_promise t)
                   | None => tx_promise t
                   end;
                 tx_active := false |}
          | fs =>
              let t' := {| tx_records := (perform r (tx_records t)).2;
                           tx_faults := tail fs;
                           tx_promise := tx_promise t;
                           tx_active := tx_active t |} in
              match success with
              | Some f => dispatch mode (f (perform r (tx_records t)).1) t'
              | None => t'
              end
          end
      end
  end.

(** The exception the first statement of a transaction body throws, if any. *)
Definition first_violation (mode : IDBTransactionMode) (h : Handler) : option JsError :=
  match h with
  | Issue r _ _ => violation mode r
  | _ => None
  end.

(** The records of a store are replaced when a transaction commits. *)
Definition commit (name storeName : string) (recs : Records) (e : Engine) : Engine :=
  set_databases
    (alter (λ d, {| version := version d;
                    objectStores := <[storeName := recs]> (objectStores d) |})
           name (databases e)) e.

(** [db.transaction(storeName, mode)] with the body run on its object store
    and the handler of [complete].  The call throws on a closed connection
    and on a store the database does not have.  In both places the source
    opens a transaction, [oncomplete] is attached after the first request is
    issued, so an exception thrown there leaves the executor before any
    handler is attached.  A transaction that has aborted writes nothing and
    fires [abort], for which this program has no handler, instead of
    [complete]. *)
Definition transaction (db : IDBDatabase) (storeName : string) (mode : IDBTransactionMode)
    (body : IDBObjectStore → Handler) (oncomplete : option (Engine → Engine))
    (st : Promise JsValue * Engine) : JsError + Promise JsValue * Engine :=
  if bool_decide (close_count st.2 (conn_id db) = Some 0%nat) then
    match stored_records st.2 (conn_name db) storeName with
    | None => inl (DOMException NotFoundError)
    | Some recs =>
        let h := body {| store_name := storeName |} in
        match first_violation mode h with
        | Some exn => inl exn
        | None =>
            let t := dispatch mode h
                       {| tx_records := recs; tx_faults := faults st.2;
                          tx_promise := st.1; tx_active := true |} in
            let e := set_faults (tx_faults t) st.2 in
            inr (tx_promise t,
                 if tx_active t
                 then from_option (λ handler, handler) id oncomplete
                        (commit (conn_name db) storeName (tx_records t) e)
                 else e)
        end
    end
  else inl (DOMException InvalidStateError).

(** ** Promises and [async] functions *)

(** An asynchronous computation: from the engine as it is found to the final
    state of the returned promise and the engine as it is left. *)
Definition Async (A : Type) : Type := Engine → Promise A * Engine.

(** [new Promise(executor)]: an exception thrown by the executor rejects the
    promise. *)
Definition new_Promise {A} (executor : Promise A * Engine → JsError + Promise A * Engine)
    : Async A :=
  λ e, match executor (Pending, e) with
       | inl exn => (Rejected exn, e)
       | inr st => st
       end.

(** [await] in an [async] function: the rest of the function runs once the
    awaited promise resolves; a rejection rejects the function's promise;
    when the awaited promise never settles, neither does the function's. *)
Definition await {A B} (m : Async A) (k : A → Async B) : Async B :=
  λ e, match m e with
       | (Resolved a, e') => k a e'
       | (Rejected c, e') => (Rejected c, e')
       | (Pending, e') => (Pending, e')
       end.

Notation "'let_await' x := m 'in' k" := (await m (λ x, k))
  (at level 10, x binder, m at level 200, k at level 200).

(** ** The functions of [IndexedDBUtil.ts] *)

(** The handler [openDB] attaches to [upgradeneeded]. *)
Definition openDB_onupgradeneeded (storeName : string) (db : Schema) : JsError + Schema :=
  if negb (contains (objectStoreNames db) storeName)
  then createObjectStore storeName db
  else inr db.

Definition openDB (dbName storeName : string) (newVersion : option Z) : Async IDBDatabase :=
  λ e,
    if negb (supported e) then
      (Rejected (Error "This browser doesn't support indexedDB"), e)
    else
      new_Promise
        (indexedDB_open dbName (Some (default 1 newVersion))
           {| onsuccess := Some (λ result st, (resolve result st.1, st.2));
              onerror := Some (λ error st, (reject error st.1, st.2));
              onupgradeneeded := Some (openDB_onupgradeneeded storeName) |}) e.

Definition deleteDB (dbName : string) : Async JsValue :=
  new_Promise
    (indexedDB_deleteDatabase dbName
       {| del_onsuccess := Some (λ result st, (resolve result st.1, st.2));
          del_onerror := Some (λ error st, (reject error st.1, st.2)) |}).

Definition getCurrentDBVersion (dbName : string) : Async Z :=
  new_Promise
    (indexedDB_open dbName None
       {| onsuccess := Some (λ db st, (resolve (conn_version db) st.1, close db st.2));
          onerror := Some (λ error st, (reject error st.1, st.2));
          onupgradeneeded := None |}).

Definition transactionPromise (db : IDBDatabase) (storeName : string)
    (mode : IDBTransactionMode) (callback : IDBObjectStore → StoreRequest)
    : Async JsValue :=
  new_Promise
    (transaction db storeName mode
       (λ store, Issue (callback store)
                       (Some (λ result, Resolve result))
                       (Some (λ error, Reject error)))
       (Some (close db))).

Definition addObjectStore (dbName newStoreName : string) (item : JsValue)
    (key : IDBValidKey) : Async JsValue :=
  let_await currentVersion := getCurrentDBVersion dbName in
  let newVersion := currentVersion + 1 in
  let_await db := openDB dbName newStoreName (Some newVersion) in
  transactionPromise db newStoreName readwrite (λ store, put store item key).

Definition set (dbName storeName : string) (item : JsValue) (key : IDBValidKey)
    : Async JsValue :=
  let_await db := openDB dbName storeName None in
  transactionPromise db storeName readwrite (λ store, put store item key).

Definition getSpecific (dbName storeName : string) (key : IDBValidKey) : Async JsValue :=
  let_await db := openDB dbName storeName None in
  transactionPromise db storeName readonly (λ store, get store key).

Definition getAll (dbName storeName : string) : Async JsValue :=
  let_await db := openDB dbName storeName None in
  transactionPromise db storeName readonly (λ store, getAll_ store).

Definition update (dbName storeName : string) (item : JsValue) (key : IDBValidKey)
    : Async JsValue :=
  let_await db := openDB dbName storeName None in
  new_Promise
    (transaction db storeName readwrite
       (λ store,
          Issue (get store key)
                (Some (λ _, Issue (put store item key)
                                  (Some (λ result, Resolve result))
                                  (Some (λ error, Reject error))))
                None)
       (Some (close db))).

Definition remove (dbName storeName : string) (key : IDBValidKey) : Async JsValue :=
  let_await db := openDB dbName storeName None in
  transactionPromise db storeName readwrite (λ store, delete_ store key).

Definition clear (dbName storeName : string) : Async JsValue :=
  let_await db := openDB dbName storeName None in
  transactionPromise db storeName readwrite (λ store, clear_ store).


(** ** Vocabulary for the statements *)

(** The six data operations as one family. *)
Inductive Operation : Type :=
| OpSet (item : JsValue) (key : IDBValidKey)
| OpGetSpecific (key : IDBValidKey)
| OpGetAll
| OpUpdate (item : JsValue) (key : IDBValidKey)
| OpRemove (key : IDBValidKey)
| OpClear.

Definition run (dbName storeName : string) (op : Operation) : Async JsValue :=
  match op with
  | OpSet item key => set dbName storeName item key
  | OpGetSpecific key => getSpecific dbName storeName key
  | OpGetAll => getAll dbName storeName
  | OpUpdate item key => update dbName storeName item key
  | OpRemove key => remove dbName storeName key
  | OpClear => clear dbName storeName
  end.

(** What an operation does with the connection once [openDB] has resolved. *)
Definition transact (storeName : string) (op : Operation) (db : IDBDatabase)
    : Async JsValue :=
  match op with
  | OpSet item key =>
      transactionPromise db storeName readwrite (λ store, put store item key)
  | OpGetSpecific key =>
      transactionPromise db storeName readonly (λ store, get store key)
  | OpGetAll => transactionPromise db storeName readonly (λ store, getAll_ store)
  | OpUpdate item key =>
      new_Promise
        (transaction db storeName readwrite
           (λ store,
              Issue (get store key)
                    (Some (λ _, Issue (put store item key)
                                      (Some (λ result, Resolve result))
                                      (Some (λ error, Reject error))))
                    None)
           (Some (close db)))
  | OpRemove key =>
      transactionPromise db storeName readwrite (λ store, delete_ store key)
  | OpClear => transactionPromise db storeName readwrite (λ store, clear_ store)
  end.

(** The request that decides the outcome of an operation, the mode of its
    transaction, and the number of requests it places in it. *)
Definition request_of (op : Operation) : StoreRequest :=
  match op with
  | OpSet item key | OpUpdate item key => Put item key
  | OpGetSpecific key => Get key
  | OpGetAll => GetAll
  | OpRemove key => Delete key
  | OpClear => Clear
  end.

Definition mode_of (op : Operation) : IDBTransactionMode :=
  match op with
  | OpGetSpecific _ | OpGetAll => readonly
  | _ => readwrite
  end.

Definition requests_of (op : Operation) : nat :=
  match op with
  | OpUpdate _ _ => 2
  | _ => 1
  end.

(** The environment fails none of the next [n] requests. *)
Fixpoint no_fault (n : nat) (fs : list (option JsError)) : bool :=
  match n, fs with
  | O, _ | _, [] => true
  | S n, None :: fs => no_fault n fs
  | S _, Some _ :: _ => false
  end.

Definition quiet (n : nat) (e : Engine) : Prop := no_fault n (faults e) = true.

(** The schema the upgrade handler of [openDB] leaves behind. *)
Definition ensure_store (storeName : string) (s : Schema) : Schema :=
  if contains (objectStoreNames s) storeName then s else <[storeName := ∅]> s.

(** The engine after [openDB] has connected at version [n]. *)
Definition opened (dbName storeName : string) (n : Z) (e : Engine) : Engine :=
  {| supported := supported e;
     databases :=
       if stored_version e dbName <? n
       then <[dbName := {| version := n;
                           objectStores := ensure_store storeName (stored_schema e dbName) |}]>
              (databases e)
       else databases e;
     handles := handles e ++ [(dbName, 0%nat)];
     faults := tail (faults e) |}.

(** The engine after a transaction on [storeName] has committed [recs] and
    its [complete] handler has closed the connection. *)
Definition completed (db : IDBDatabase) (storeName : string) (recs : Records)
    (e : Engine) : Engine :=
  close db (commit (conn_name db) storeName recs e).

(** The version [indexedDB.open] settles on when none is given. *)
Definition current_version (e : Engine) (dbName : string) : Z :=
  if stored_version e dbName =? 0 then 1 else stored_version e dbName.

(** The engine after [getCurrentDBVersion] has resolved: a database that did
    not exist has been created at version [1] without any store, and the
    connection has come and gone. *)
Definition inspected (dbName : string) (e : Engine) : Engine :=
  {| supported := supported e;
     databases :=
       if stored_version e dbName =? 0
       then <[dbName := {| version := 1; objectStores := stored_schema e dbName |}]>
              (databases e)
       else databases e;
     handles := handles e ++ [(dbName, 1%nat)];
     faults := tail (faults e) |}.

(** The engine after [addObjectStore] has resolved. *)
Definition migrated (dbName newStoreName : string) (item : JsValue) (key : IDBValidKey)
    (e : Engine) : Engine :=
  let v := current_version e dbName in
  let e1 := opened dbName newStoreName (v + 1) (inspected dbName e) in
  completed {| conn_id := S (length (handles e)); conn_name := dbName;
               conn_version := v + 1 |}
    newStoreName
    (<[key := item]> (default ∅ (stored_schema e dbName !! newStoreName)))
    (past_request e1).

(** Every call the module offers. *)
Inductive Call : Type :=
| CallOpenDB (dbName storeName : string) (newVersion : option Z)
| CallDeleteDB (dbName : string)
| CallGetCurrentDBVersion (dbName : string)
| CallAddObjectStore (dbName newStoreName : string) (item : JsValue) (key : IDBValidKey)
| CallOperation (dbName storeName : string) (op : Operation).

(** The engine a call leaves behind. *)
Definition engine_after (c : Call) (e : Engine) : Engine :=
  match c with
  | CallOpenDB dbName storeName newVersion => (openDB dbName storeName newVersion e).2
  | CallDeleteDB dbName => (deleteDB dbName e).2
  | CallGetCurrentDBVersion dbName => (getCurrentDBVersion dbName e).2
  | CallAddObjectStore dbName newStoreName item key =>
      (addObjectStore dbName newStoreName item key e).2
  | CallOperation dbName storeName op => (run dbName storeName op e).2
  end.

(** Every database of [e] is still there in [e'], at a version that is not
    lower. *)
Definition keeps_versions (e e' : Engine) : Prop :=
  ∀ name d, databases e !! name = Some d →
    ∃ d', databases e' !! name = Some d' ∧ version d ≤ version d'.

(** Every store of [e] is still there in [e'], with the records it had. *)
Definition keeps_records (e e' : Engine) : Prop :=
  ∀ name storeName recs,
    stored_records e name storeName = Some recs →
    stored_records e' name storeName = Some recs.

(** ** The scenario of the usage comments *)

(** A browser that has never seen ["testDB"]. *)
Definition new_browser : Engine :=
  {| supported := true; databases := ∅; handles := []; faults := [] |}.

(** The item of the usage comments, [{ id: 1, name: 'nkia' }]. *)
Definition nkia : JsValue := JObject [("id", JNumber 1); ("name", JString "nkia")].

(** ["testDB"] at version [1] with an empty ["testStore"], as a first [set]
    or [openDB] creates it. *)
Definition with_store : Engine :=
  {| supported := true;
     databases :=
       {[ "testDB" := {| version := 1; objectStores := {[ "testStore" := ∅ ]} |} ]};
     handles := [];
     faults := [] |}.

(** The same browser after [addObjectStore('testDB', 'newStore', ...)] has
    resolved: ["testDB"] is at version [2]. *)
Definition after_migration : Engine :=
  (addObjectStore "testDB" "newStore" nkia (KString "init") with_store).2.

(** A browser that had never seen ["testDB"], after its first
    [set('testDB', 'testStore', nkia, 'init')]. *)
Definition after_first_set : Engine :=
  (set "testDB" "testStore" nkia (KString "init") new_browser).2.

(** * Properties *)

(** Case analysis on the tests and matches that decide an outcome. *)
Ltac case_outcome :=
  repeat match goal with
         | |- context [if ?b then _ else _] => destruct b
         | |- context [match ?o with Some _ => _ | None => _ end] => destruct o
         end.

(** ** Promises *)

Lemma await_resolved {A B} (m : Async A) (k : A → Async B) e a e' :
  m e = (Resolved a, e') → await m k e = k a e'.
Proof. intros H. unfold await. by rewrite H. Qed.

Lemma await_rejected {A B} (m : Async A) (k : A → Async B) e c e' :
  m e = (Rejected c, e') → await m k e = (Rejected c, e').
Proof. intros H. unfold await. by rewrite H. Qed.

Lemma await_pending {A B} (m : Async A) (k : A → Async B) e e' :
  m e = (Pending, e') → await m k e = (Pending, e').
Proof. intros H. unfold await. by rewrite H. Qed.

Lemma run_eq dbName storeName op :
  run dbName storeName op =
    let_await db := openDB dbName storeName None in transact storeName op db.
Proof. by destruct op. Qed.

(** ** The fault script *)

Lemma quiet_S n e : quiet (S n) e → pending_fault e = None ∧ quiet n (past_request e).
Proof.
  unfold quiet, pending_fault, past_request. cbn [faults set_faults].
  destruct (faults e) as [|[c|] fs]; cbn; try done.
  intros _. split; [done|]. by destruct n.
Qed.

Lemma iter_past_request_handles n e :
  handles (Nat.iter n past_request e) = handles e.
Proof. induction n; [done|]. by cbn. Qed.

Lemma iter_past_request_databases n e :
  databases (Nat.iter n past_request e) = databases e.
Proof. induction n; [done|]. by cbn. Qed.

Lemma stored_version_iter_past_request k e n :
  stored_version (Nat.iter k past_request e) n = stored_version e n.
Proof. unfold stored_version. by rewrite iter_past_request_databases. Qed.

Lemma stored_records_iter_past_request k e n s :
  stored_records (Nat.iter k past_request e) n s = stored_records e n s.
Proof. unfold stored_records. by rewrite iter_past_request_databases. Qed.

(** ** The upgrade handler *)

(** The guard of the upgrade handler is what keeps the engine from
    throwing: on its own, creating a store that exists is an error. *)
Lemma createObjectStore_existing storeName (s : Schema) :
  is_Some (s !! storeName) →
  createObjectStore storeName s = inl (DOMException ConstraintError).
Proof.
  intros H. unfold createObjectStore, contains, objectStoreNames.
  rewrite bool_decide_eq_true_2; [done|]. by apply elem_of_dom.
Qed.

Lemma openDB_onupgradeneeded_eq storeName s :
  openDB_onupgradeneeded storeName s = inr (ensure_store storeName s).
Proof.
  unfold openDB_onupgradeneeded, createObjectStore, ensure_store.
  by destruct (contains _ _).
Qed.

Lemma ensure_store_lookup storeName (s : Schema) :
  ensure_store storeName s !! storeName = Some (default ∅ (s !! storeName)).
Proof.
  unfold ensure_store, contains, objectStoreNames. case_bool_decide as Hin.
  - by apply elem_of_dom in Hin as [recs ->].
  - apply not_elem_of_dom in Hin. by rewrite Hin, lookup_insert_eq.
Qed.

Lemma ensure_store_existing storeName (s : Schema) :
  is_Some (s !! storeName) → ensure_store storeName s = s.
Proof.
  intros H. unfold ensure_store, contains, objectStoreNames.
  rewrite bool_decide_eq_true_2; [done|]. by apply elem_of_dom.
Qed.

Lemma insert_ensure_store storeName (s : Schema) recs :
  <[storeName := recs]> (ensure_store storeName s) = <[storeName := recs]> s.
Proof.
  unfold ensure_store. destruct (contains _ _); [done|]. apply insert_insert_eq.
Qed.

(** ** [openDB] *)

(** [openDB] in full, on a platform that has the engine. *)
Lemma openDB_unfold dbName storeName v e :
  supported e = true →
  openDB dbName storeName v e =
    let n := default 1 v in
    if version_in_range (Some n) then
      match pending_fault e with
      | Some c => (Rejected c, past_request e)
      | None =>
          if n <? stored_version e dbName then
            (Rejected (DOMException VersionError), past_request e)
          else if (stored_version e dbName <? n) && has_open_connection e dbName then
            (Pending, past_request e)
          else
            (Resolved {| conn_id := length (handles e); conn_name := dbName;
                         conn_version := n |},
             opened dbName storeName n e)
      end
    else (Rejected TypeError, e).
Proof.
  intros Hs. destruct e as [s d h fs]. cbn in Hs. subst s.
  unfold openDB, new_Promise, indexedDB_open, open_request.
  cbn [negb snd fst supported].
  destruct (version_in_range _); [|reflexivity].
  destruct (pending_fault _) as [c|]; [reflexivity|].
  cbn [default onerror onsuccess onupgradeneeded fire from_option fst snd].
  rewrite openDB_onupgradeneeded_eq.
  unfold opened, connect, past_request, set_faults, set_databases, set_handles,
    stored_version, stored_schema, has_open_connection.
  cbn [supported databases handles faults fst snd fire onsuccess resolve].
  destruct (_ <? from_option version 0 _); [reflexivity|].
  destruct (from_option version 0 _ <? _); cbn [andb]; [|reflexivity].
  by destruct (existsb _ _).
Qed.

Lemma openDB_unsupported dbName storeName v e :
  supported e = false →
  openDB dbName storeName v e =
    (Rejected (Error "This browser doesn't support indexedDB"), e).
Proof. intros Hs. unfold openDB. by rewrite Hs. Qed.

(** What is known once [openDB] has resolved. *)
Lemma openDB_resolved dbName storeName v e db e1 :
  openDB dbName storeName v e = (Resolved db, e1) →
  supported e = true ∧ pending_fault e = None ∧
  version_in_range (Some (default 1 v)) = true ∧
  stored_version e dbName ≤ default 1 v ∧
  (stored_version e dbName < default 1 v → has_open_connection e dbName = false) ∧
  db = {| conn_id := length (handles e); conn_name := dbName;
          conn_version := default 1 v |} ∧
  e1 = opened dbName storeName (default 1 v) e.
Proof.
  destruct (supported e) eqn:Hs.
  - rewrite openDB_unfold by done. cbv zeta.
    destruct (version_in_range _); [|done].
    destruct (pending_fault e); [done|].
    destruct (_ <? stored_version e dbName) eqn:E1; [done|].
    destruct (stored_version e dbName <? _) eqn:E2; cbn [andb].
    + destruct (has_open_connection e dbName); [done|].
      intros [= <- <-]. repeat split; try done; lia.
    + intros [= <- <-]. repeat split; try done; lia.
  - by rewrite openDB_unsupported.
Qed.

(** [openDB] on a database whose version is past [1]. *)
Lemma openDB_stale dbName storeName e :
  1 < stored_version e dbName →
  ∃ c e',
    openDB dbName storeName None e = (Rejected c, e') ∧
    databases e' = databases e ∧ handles e' = handles e ∧
    (supported e = true → pending_fault e = None → c = DOMException VersionError).
Proof.
  intros Hv. destruct (supported e) eqn:Hs.
  - rewrite openDB_unfold by done. cbn [default from_option id].
    change (version_in_range (Some 1)) with true. cbv iota zeta.
    destruct (pending_fault e) as [c|].
    + exists c, (past_request e). by repeat split.
    + destruct (1 <? _) eqn:E; [|lia].
      exists (DOMException VersionError), (past_request e). by repeat split.
  - rewrite openDB_unsupported by done. eexists _, e. by repeat split.
Qed.

(** ** The engine after [openDB] *)

Lemma alter_last_handle (hs : list (string * nat)) (h : string * nat) f :
  alter f (length hs) (hs ++ [h]) = hs ++ [f h].
Proof.
  replace (length hs) with (length hs + 0)%nat by lia.
  by rewrite alter_app_r.
Qed.

Lemma opened_close_count dbName storeName n e :
  close_count (opened dbName storeName n e) (length (handles e)) = Some 0%nat.
Proof.
  unfold close_count, opened. cbn [handles].
  by rewrite list_lookup_middle.
Qed.

Lemma stored_version_opened dbName storeName n e :
  stored_version e dbName ≤ n →
  stored_version (opened dbName storeName n e) dbName = n.
Proof.
  intros Hle. unfold stored_version at 1. unfold opened. cbn [databases].
  destruct (stored_version e dbName <? n) eqn:E.
  - by rewrite lookup_insert_eq.
  - fold (stored_version e dbName). lia.
Qed.

(** After [openDB] has run the upgrade, the store is there. *)
Lemma stored_records_opened_upgrade dbName storeName n e :
  stored_version e dbName < n →
  stored_records (opened dbName storeName n e) dbName storeName =
    Some (default ∅ (stored_schema e dbName !! storeName)).
Proof.
  intros Hlt. unfold opened, stored_records. cbn [databases].
  destruct (stored_version e dbName <? n) eqn:E; [|lia].
  rewrite lookup_insert_eq. cbn [mbind option_bind objectStores].
  apply ensure_store_lookup.
Qed.

Lemma stored_records_opened_same dbName storeName n e :
  n ≤ stored_version e dbName →
  stored_records (opened dbName storeName n e) dbName storeName =
    stored_records e dbName storeName.
Proof.
  intros Hle. unfold opened, stored_records. cbn [databases].
  destruct (stored_version e dbName <? n) eqn:E; [lia|done].
Qed.

Lemma databases_opened_same dbName storeName n e :
  n ≤ stored_version e dbName →
  databases (opened dbName storeName n e) = databases e.
Proof.
  intros Hle. unfold opened. cbn [databases].
  destruct (stored_version e dbName <? n) eqn:E; [lia|done].
Qed.

(** ** Transactions *)

Lemma violation_mode_of op :
  violation (mode_of op) (request_of op) =
    match op with
    | OpSet item _ | OpUpdate item _ =>
        if serializable item then None else Some (DOMException DataCloneError)
    | _ => None
    end.
Proof. by destruct op. Qed.

Section OpenConnection.

(** An open connection [db] on the engine [e], and a store name. *)
Variables (db : IDBDatabase) (storeName : string) (e : Engine).
Hypothesis connection_open : close_count e (conn_id db) = Some 0%nat.

(** [transactionPromise] in full, on a database that has the store. *)
Lemma transactionPromise_unfold mode callback recs :
  stored_records e (conn_name db) storeName = Some recs →
  transactionPromise db storeName mode callback e =
    let r := callback {| store_name := storeName |} in
    match violation mode r with
    | Some exn => (Rejected exn, e)
    | None =>
        match pending_fault e with
        | Some c => (Rejected c, past_request e)
        | None =>
            (Resolved (perform r recs).1,
             completed db storeName (perform r recs).2 (past_request e))
        end
    end.
Proof.
  intros Hr. unfold transactionPromise, new_Promise, transaction.
  cbn [fst snd]. rewrite connection_open, Hr, bool_decide_eq_true_2 by done.
  cbn [first_violation dispatch].
  destruct (violation _ _); [reflexivity|].
  unfold pending_fault, past_request, completed.
  cbn [tx_faults tx_records tx_promise tx_active].
  by destruct (faults e) as [|[c|] fs].
Qed.

(** The read-then-write transaction of [update] in full. *)
Lemma update_transaction_unfold item key recs :
  stored_records e (conn_name db) storeName = Some recs →
  transact storeName (OpUpdate item key) db e =
    match pending_fault e with
    | Some _ => (Pending, past_request e)
    | None =>
        if serializable item then
          match pending_fault (past_request e) with
          | Some c => (Rejected c, past_request (past_request e))
          | None =>
              (Resolved (key_value key),
               completed db storeName (<[key := item]> recs)
                 (past_request (past_request e)))
          end
        else (Pending, past_request e)
    end.
Proof.
  intros Hr. unfold transact, new_Promise, transaction.
  cbn [fst snd]. rewrite connection_open, Hr, bool_decide_eq_true_2 by done.
  cbn [first_violation dispatch get put violation perform fst snd].
  unfold pending_fault, past_request, completed.
  cbn [tx_faults tx_records tx_promise tx_active].
  destruct (faults e) as [|[c|] fs]; cbn [tl tx_faults tx_records tx_promise tx_active];
    try reflexivity.
  - by destruct (serializable item).
  - destruct (serializable item); [|reflexivity].
    by destruct fs as [|[c|] fs].
Qed.

(** Without the store, [db.transaction] throws and the promise rejects;
    nothing is left to close the connection. *)
Lemma transact_no_store op :
  stored_records e (conn_name db) storeName = None →
  transact storeName op db e = (Rejected (DOMException NotFoundError), e).
Proof.
  intros Hr.
  destruct op; unfold transact, transactionPromise, new_Promise, transaction;
    cbn [fst snd]; by rewrite connection_open, Hr, bool_decide_eq_true_2.
Qed.

(** An operation whose promise resolved found its store, resolved with the
    result of its request, committed it, and closed the connection. *)
Lemma transact_resolved op r e' :
  transact storeName op db e = (Resolved r, e') →
  ∃ recs,
    stored_records e (conn_name db) storeName = Some recs ∧
    violation (mode_of op) (request_of op) = None ∧
    r = (perform (request_of op) recs).1 ∧
    e' = completed db storeName (perform (request_of op) recs).2
           (Nat.iter (requests_of op) past_request e).
Proof.
  destruct (stored_records e (conn_name db) storeName) as [recs|] eqn:Hr;
    [|by rewrite transact_no_store].
  intros H. exists recs. split; [done|]. revert H.
  destruct op;
    rewrite ?(update_transaction_unfold _ _ recs) by done;
    cbn [transact];
    rewrite ?(transactionPromise_unfold _ _ recs) by done;
    cbv zeta; cbn [put get getAll_ delete_ clear_ violation mode_of request_of];
    case_outcome; try done; by intros [= <- <-].
Qed.

(** Conversely: on a database that has the store, an operation whose item
    can be cloned and whose requests meet no fault resolves. *)
Lemma transact_quiet op recs :
  stored_records e (conn_name db) storeName = Some recs →
  violation (mode_of op) (request_of op) = None →
  quiet (requests_of op) e →
  transact storeName op db e =
    (Resolved (perform (request_of op) recs).1,
     completed db storeName (perform (request_of op) recs).2
       (Nat.iter (requests_of op) past_request e)).
Proof.
  intros Hr Hv Hq. rewrite violation_mode_of in Hv.
  destruct op;
    rewrite ?(update_transaction_unfold _ _ recs) by done;
    cbn [transact requests_of] in *;
    rewrite ?(transactionPromise_unfold _ _ recs) by done;
    cbv zeta; cbn [put get getAll_ delete_ clear_ violation mode_of request_of];
    try (destruct (serializable item); [|done]);
    apply quiet_S in Hq as [-> Hq]; try done.
  by apply quiet_S in Hq as [-> _].
Qed.

(** A request that fails: the single request of the operations built on
    [transactionPromise] rejects the promise with the cause; the read of
    [update] settles nothing.  Either way the transaction aborts, nothing is
    written and nothing closes the connection. *)
Lemma transact_request_error op c :
  is_Some (stored_records e (conn_name db) storeName) →
  violation (mode_of op) (request_of op) = None →
  pending_fault e = Some c →
  transact storeName op db e =
    (match op with OpUpdate _ _ => Pending | _ => Rejected c end, past_request e).
Proof.
  intros [recs Hr] Hv Hf. rewrite violation_mode_of in Hv.
  destruct op;
    rewrite ?(update_transaction_unfold _ _ recs) by done;
    cbn [transact];
    rewrite ?(transactionPromise_unfold _ _ recs) by done;
    cbv zeta; cbn [put get getAll_ delete_ clear_ violation];
    by rewrite ?Hv, Hf.
Qed.

End OpenConnection.

(** ** The engine after a transaction *)

Lemma stored_version_commit name storeName recs e n :
  stored_version (commit name storeName recs e) n = stored_version e n.
Proof.
  unfold stored_version, commit. cbn [databases set_databases].
  rewrite lookup_alter. case_decide; [subst|done].
  by destruct (databases e !! n).
Qed.

Lemma stored_version_completed db storeName recs e n :
  stored_version (completed db storeName recs e) n = stored_version e n.
Proof. apply stored_version_commit. Qed.

Lemma completed_handles db storeName recs e :
  handles (completed db storeName recs e) =
    alter (λ h, (h.1, S h.2)) (conn_id db) (handles e).
Proof. reflexivity. Qed.

(** A commit puts the records of the transaction in place of the store's. *)
Lemma stored_records_completed db storeName recs e :
  is_Some (stored_records e (conn_name db) storeName) →
  stored_records (completed db storeName recs e) (conn_name db) storeName = Some recs.
Proof.
  unfold stored_records, completed, close, commit.
  cbn [databases set_databases set_handles].
  rewrite lookup_alter_eq.
  destruct (databases e !! conn_name db) as [d|]; cbn; [|by intros [? ?]].
  intros _. by rewrite lookup_insert_eq.
Qed.

(** A commit of the records that were there changes nothing. *)
Lemma databases_completed_same db storeName recs e :
  stored_records e (conn_name db) storeName = Some recs →
  databases (completed db storeName recs e) = databases e.
Proof.
  unfold stored_records, completed, close, commit.
  cbn [databases set_databases set_handles].
  intros H. apply map_eq. intros n. rewrite lookup_alter. case_decide; [subst|done].
  destruct (databases e !! conn_name db) as [[v s]|]; cbn in *; [|done].
  by rewrite insert_id.
Qed.

(** ** The data operations *)

(** An operation whose [openDB] goes through continues on the connection. *)
Lemma run_opened dbName storeName op e :
  supported e = true →
  pending_fault e = None →
  stored_version e dbName ≤ 1 →
  (stored_version e dbName < 1 → has_open_connection e dbName = false) →
  run dbName storeName op e =
    transact storeName op
      {| conn_id := length (handles e); conn_name := dbName; conn_version := 1 |}
      (opened dbName storeName 1 e).
Proof.
  intros Hs Hf Hle Hopen. rewrite run_eq.
  apply await_resolved.
  rewrite openDB_unfold by done. cbn [default from_option id].
  change (version_in_range (Some 1)) with true. cbv iota zeta.
  rewrite Hf.
  destruct (1 <? stored_version e dbName) eqn:E1; [lia|].
  destruct (stored_version e dbName <? 1) eqn:E2; [|done].
  by rewrite Hopen by lia.
Qed.

(** An operation that resolved, step by step. *)
Lemma run_resolved dbName storeName op e r e' :
  run dbName storeName op e = (Resolved r, e') →
  let db := {| conn_id := length (handles e); conn_name := dbName; conn_version := 1 |} in
  let e1 := opened dbName storeName 1 e in
  supported e = true ∧ pending_fault e = None ∧ stored_version e dbName ≤ 1 ∧
  (stored_version e dbName < 1 → has_open_connection e dbName = false) ∧
  violation (mode_of op) (request_of op) = None ∧
  ∃ recs,
    stored_records e1 dbName storeName = Some recs ∧
    r = (perform (request_of op) recs).1 ∧
    e' = completed db storeName (perform (request_of op) recs).2
           (Nat.iter (requests_of op) past_request e1).
Proof.
  rewrite run_eq. unfold await.
  destruct (openDB dbName storeName None e) as [[|db|c] e1] eqn:Ho; try done.
  destruct (openDB_resolved _ _ _ _ _ _ Ho) as (Hs & Hf & _ & Hle & Hopen & -> & ->).
  intros Ht. apply transact_resolved in Ht as (recs & Hr & Hv & -> & ->);
    [|apply opened_close_count].
  cbv zeta. repeat split; try done. by exists recs.
Qed.

(** An operation on a database at version [1] that has the store, with an
    item that can be cloned and an environment that fails nothing, step by
    step. *)
Lemma run_quiet dbName storeName op e recs :
  supported e = true →
  stored_version e dbName = 1 →
  stored_records e dbName storeName = Some recs →
  violation (mode_of op) (request_of op) = None →
  quiet (S (requests_of op)) e →
  let db := {| conn_id := length (handles e); conn_name := dbName; conn_version := 1 |} in
  run dbName storeName op e =
    (Resolved (perform (request_of op) recs).1,
     completed db storeName (perform (request_of op) recs).2
       (Nat.iter (requests_of op) past_request (opened dbName storeName 1 e))).
Proof.
  intros Hs Hv Hr Hviol Hq. apply quiet_S in Hq as [Hf Hq].
  cbv zeta. rewrite run_opened by (done || lia).
  apply transact_quiet; try done.
  - apply opened_close_count.
  - cbn [conn_name]. by rewrite stored_records_opened_same by lia.
Qed.

(** Every operation whose promise resolves has closed its connection: the
    connection it opened is the last handle, with one [close()] to its name,
    and no other handle is touched. *)
Lemma run_resolved_closes_once dbName storeName op e r e' :
  run dbName storeName op e = (Resolved r, e') →
  handles e' = handles e ++ [(dbName, 1%nat)].
Proof.
  intros H. apply run_resolved in H as (_ & _ & _ & _ & _ & recs & _ & _ & ->).
  rewrite completed_handles, iter_past_request_handles.
  cbn [conn_id opened handles]. apply alter_last_handle.
Qed.

(** A failing request, seen from the caller: every operation but [update]
    rejects with the cause, the read of [update] leaves the promise pending,
    and in both cases the connection the operation opened is never closed. *)
Lemma request_error dbName storeName op e db e1 c :
  openDB dbName storeName None e = (Resolved db, e1) →
  is_Some (stored_records e1 dbName storeName) →
  violation (mode_of op) (request_of op) = None →
  pending_fault e1 = Some c →
  run dbName storeName op e =
    (match op with OpUpdate _ _ => Pending | _ => Rejected c end, past_request e1) ∧
  close_count (past_request e1) (conn_id db) = Some 0%nat.
Proof.
  intros Ho Hr Hv Hf.
  pose proof (openDB_resolved _ _ _ _ _ _ Ho) as (_ & _ & _ & _ & _ & -> & ->).
  split; [|exact (opened_close_count dbName storeName _ e)].
  rewrite run_eq, (await_resolved _ _ _ _ _ Ho).
  apply transact_request_error; [apply opened_close_count|done..].
Qed.

(** The write of [update] has both handlers: its failure rejects the
    promise with the cause.  The connection stays open all the same. *)
Lemma update_write_error dbName storeName item key e db e1 c :
  openDB dbName storeName None e = (Resolved db, e1) →
  is_Some (stored_records e1 dbName storeName) →
  serializable item = true →
  pending_fault e1 = None →
  pending_fault (past_request e1) = Some c →
  update dbName storeName item key e = (Rejected c, past_request (past_request e1)) ∧
  close_count (past_request (past_request e1)) (conn_id db) = Some 0%nat.
Proof.
  intros Ho [recs Hr] Hser Hf1 Hf2.
  pose proof (openDB_resolved _ _ _ _ _ _ Ho) as (_ & _ & _ & _ & _ & -> & ->).
  split; [|exact (opened_close_count dbName storeName _ e)].
  change (update dbName storeName item key)
    with (run dbName storeName (OpUpdate item key)).
  rewrite run_eq, (await_resolved _ _ _ _ _ Ho).
  erewrite update_transaction_unfold; [|apply opened_close_count|exact Hr].
  by rewrite Hf1, Hser, Hf2.
Qed.

(** ** The version inspector *)

Lemma getCurrentDBVersion_unfold dbName e :
  getCurrentDBVersion dbName e =
    if supported e then
      match pending_fault e with
      | Some c => (Rejected c, past_request e)
      | None =>
          if (stored_version e dbName =? 0) && has_open_connection e dbName
          then (Pending, past_request e)
          else (Resolved (current_version e dbName), inspected dbName e)
      end
    else (Rejected ReferenceError, e).
Proof.
  destruct e as [[] d h fs]; [|reflexivity].
  unfold getCurrentDBVersion, new_Promise, indexedDB_open, open_request.
  cbn [negb snd fst supported version_in_range].
  destruct (pending_fault _) as [c|]; [reflexivity|].
  cbn [default onerror onsuccess onupgradeneeded fire from_option fst snd].
  unfold inspected, current_version, connect, close, past_request, set_faults,
    set_databases, set_handles, stored_version, stored_schema, has_open_connection.
  cbn [supported databases handles faults fst snd fire onsuccess resolve
       conn_id conn_version].
  rewrite alter_last_handle. cbn [fst snd].
  destruct (from_option version 0 (d !! dbName) =? 0) eqn:E0.
  - apply Z.eqb_eq in E0. rewrite E0. cbn [Z.ltb Z.compare andb].
    by destruct (existsb _ _).
  - by rewrite !Z.ltb_irrefl.
Qed.

(** What is known once [getCurrentDBVersion] has resolved. *)
Lemma getCurrentDBVersion_resolved dbName e v e' :
  getCurrentDBVersion dbName e = (Resolved v, e') →
  supported e = true ∧ pending_fault e = None ∧
  (stored_version e dbName = 0 → has_open_connection e dbName = false) ∧
  v = current_version e dbName ∧ e' = inspected dbName e.
Proof.
  rewrite getCurrentDBVersion_unfold.
  destruct (supported e); [|done].
  destruct (pending_fault e); [done|].
  destruct (stored_version e dbName =? 0) eqn:E0; cbn [andb].
  - destruct (has_open_connection e dbName); [done|]. by intros [= <- <-].
  - intros [= <- <-]. repeat split; try done. lia.
Qed.

Lemma current_version_nonzero e dbName : current_version e dbName ≠ 0.
Proof. unfold current_version. destruct (_ =? 0) eqn:E; lia. Qed.

Lemma stored_version_inspected dbName e :
  stored_version (inspected dbName e) dbName = current_version e dbName.
Proof.
  unfold stored_version at 1. unfold inspected, current_version. cbn [databases].
  destruct (stored_version e dbName =? 0); [|done].
  by rewrite lookup_insert_eq.
Qed.

Lemma stored_schema_inspected dbName e :
  stored_schema (inspected dbName e) dbName = stored_schema e dbName.
Proof.
  unfold stored_schema at 1. unfold inspected. cbn [databases].
  destruct (stored_version e dbName =? 0); [|done].
  by rewrite lookup_insert_eq.
Qed.

Lemma is_open_closed dbName : is_open dbName (dbName, 1%nat) = false.
Proof. unfold is_open. cbn [snd]. apply andb_false_r. Qed.

Lemma has_open_connection_inspected dbName e :
  has_open_connection (inspected dbName e) dbName = has_open_connection e dbName.
Proof.
  unfold has_open_connection, inspected. cbn [handles].
  rewrite existsb_app. cbn [existsb].
  by rewrite is_open_closed, !orb_false_r.
Qed.

(** ** The migration *)

(** [addObjectStore] in full, where the version inspection goes through. *)
Lemma addObjectStore_unfold dbName newStoreName item key e :
  supported e = true →
  pending_fault e = None →
  (stored_version e dbName = 0 → has_open_connection e dbName = false) →
  addObjectStore dbName newStoreName item key e =
    let v := current_version e dbName in
    let e0 := inspected dbName e in
    if version_in_range (Some (v + 1)) then
      match pending_fault e0 with
      | Some c => (Rejected c, past_request e0)
      | None =>
          if has_open_connection e dbName then (Pending, past_request e0)
          else
            let e1 := opened dbName newStoreName (v + 1) e0 in
            if serializable item then
              match pending_fault e1 with
              | Some c => (Rejected c, past_request e1)
              | None => (Resolved (key_value key),
                         migrated dbName newStoreName item key e)
              end
            else (Rejected (DOMException DataCloneError), e1)
      end
    else (Rejected TypeError, e0).
Proof.
  intros Hs Hf Hopen. unfold addObjectStore.
  erewrite await_resolved; last first.
  { rewrite getCurrentDBVersion_unfold, Hs, Hf.
    destruct (stored_version e dbName =? 0) eqn:E0; [|reflexivity].
    by rewrite Hopen by lia. }
  cbv zeta. unfold await at 1.
  rewrite openDB_unfold by done. cbn [default from_option id]. cbv zeta.
  destruct (version_in_range _); [|reflexivity].
  destruct (pending_fault (inspected dbName e)); [reflexivity|].
  rewrite stored_version_inspected, has_open_connection_inspected.
  destruct (_ <? current_version e dbName) eqn:E1; [lia|].
  destruct (current_version e dbName <? _) eqn:E2; [|lia]. cbn [andb].
  destruct (has_open_connection e dbName); [reflexivity|].
  erewrite transactionPromise_unfold; last first.
  { cbn [conn_name]. apply stored_records_opened_upgrade.
    rewrite stored_version_inspected. lia. }
  { apply opened_close_count. }
  cbv zeta. cbn [put violation]. rewrite stored_schema_inspected.
  destruct (serializable item); [|reflexivity].
  destruct (pending_fault (opened _ _ _ _)); [reflexivity|].
  cbn [perform fst snd]. unfold migrated. cbn [inspected handles].
  rewrite length_app. cbn [length]. by rewrite Nat.add_1_r.
Qed.

(** What is known once [addObjectStore] has resolved. *)
Lemma addObjectStore_resolved dbName newStoreName item key e r e' :
  addObjectStore dbName newStoreName item key e = (Resolved r, e') →
  supported e = true ∧ has_open_connection e dbName = false ∧
  version_in_range (Some (current_version e dbName + 1)) = true ∧
  r = key_value key ∧ e' = migrated dbName newStoreName item key e.
Proof.
  intros H.
  assert (supported e = true ∧ pending_fault e = None ∧
          (stored_version e dbName = 0 → has_open_connection e dbName = false))
    as (Hs & Hf & Hopen).
  { revert H. unfold addObjectStore, await at 1.
    destruct (getCurrentDBVersion dbName e) as [[|v|c] e0] eqn:Hg; try done.
    intros _. apply getCurrentDBVersion_resolved in Hg. tauto. }
  revert H. rewrite addObjectStore_unfold by done. cbv zeta.
  case_outcome; try done. by intros [= <- <-].
Qed.

Lemma stored_version_migrated dbName newStoreName item key e :
  stored_version (migrated dbName newStoreName item key e) dbName =
    current_version e dbName + 1.
Proof.
  unfold migrated. cbv zeta.
  rewrite stored_version_completed.
  change (stored_version (past_request ?x)) with (stored_version x).
  apply stored_version_opened. rewrite stored_version_inspected. lia.
Qed.

(** The schema [addObjectStore] leaves: the schema it found, with the store
    holding what it held before (nothing, when the store is new) and the
    seed. *)
Lemma stored_schema_migrated dbName newStoreName item key e :
  stored_schema (migrated dbName newStoreName item key e) dbName =
    <[newStoreName :=
        <[key := item]> (default ∅ (stored_schema e dbName !! newStoreName))]>
      (stored_schema e dbName).
Proof.
  unfold stored_schema at 1. unfold migrated, completed, close, commit.
  cbn [databases set_databases set_handles conn_name past_request set_faults opened].
  rewrite stored_version_inspected.
  destruct (_ <? _) eqn:E; [|lia].
  rewrite lookup_alter_eq, lookup_insert_eq.
  cbn [fmap option_fmap option_map from_option objectStores].
  rewrite stored_schema_inspected. apply insert_ensure_store.
Qed.

Lemma stored_records_migrated dbName newStoreName item key e :
  stored_records (migrated dbName newStoreName item key e) dbName newStoreName =
    Some (<[key := item]> (default ∅ (stored_schema e dbName !! newStoreName))).
Proof.
  unfold migrated.
  apply (stored_records_completed
           {| conn_id := S (length (handles e)); conn_name := dbName;
              conn_version := current_version e dbName + 1 |}).
  cbn [conn_name]. change (stored_records (past_request ?x)) with (stored_records x).
  rewrite stored_records_opened_upgrade; [by eexists|].
  rewrite stored_version_inspected. lia.
Qed.

Lemma has_open_connection_migrated dbName newStoreName item key e :
  has_open_connection (migrated dbName newStoreName item key e) dbName =
    has_open_connection e dbName.
Proof.
  unfold has_open_connection, migrated, completed, close, commit.
  cbn [handles set_databases set_handles conn_id past_request set_faults opened
       inspected].
  replace (S (length (handles e))) with (length (handles e ++ [(dbName, 1%nat)]))
    by (rewrite length_app; cbn; lia).
  rewrite alter_last_handle, !existsb_app. cbn [existsb fst snd].
  by rewrite !is_open_closed, !orb_false_r.
Qed.

(** The version a later inspection reports. *)
Lemma version_after_addObjectStore dbName newStoreName item key e r e1 :
  addObjectStore dbName newStoreName item key e = (Resolved r, e1) →
  pending_fault e1 = None →
  getCurrentDBVersion dbName e1 =
    (Resolved (current_version e dbName + 1), inspected dbName e1).
Proof.
  intros Ha Hf.
  apply addObjectStore_resolved in Ha as (Hs & _ & Hrange & _ & ->).
  rewrite getCurrentDBVersion_unfold.
  change (supported (migrated dbName newStoreName item key e)) with (supported e).
  rewrite Hs, Hf.
  unfold current_version at 1. rewrite stored_version_migrated.
  cbn [version_in_range] in Hrange.
  by destruct (_ =? 0) eqn:E; [lia|].
Qed.

(** ** Versions across the whole interface *)

Lemma keeps_versions_same e e' : databases e' = databases e → keeps_versions e e'.
Proof. intros H name d Hd. exists d. by rewrite H. Qed.

Lemma keeps_versions_trans e1 e2 e3 :
  keeps_versions e1 e2 → keeps_versions e2 e3 → keeps_versions e1 e3.
Proof.
  intros H12 H23 name d Hd.
  destruct (H12 _ _ Hd) as (d2 & Hd2 & Hle2).
  destruct (H23 _ _ Hd2) as (d3 & Hd3 & Hle3).
  exists d3. split; [done|lia].
Qed.

Lemma keeps_versions_opened dbName storeName n e :
  keeps_versions e (opened dbName storeName n e).
Proof.
  intros name d Hd. unfold opened. cbn [databases].
  destruct (stored_version e dbName <? n) eqn:E; [|by exists d].
  destruct (decide (name = dbName)) as [->|Hne].
  - rewrite lookup_insert_eq. eexists. split; [done|].
    unfold stored_version in E. rewrite Hd in E. cbn in *. lia.
  - rewrite lookup_insert_ne by done. by exists d.
Qed.

Lemma keeps_versions_inspected dbName e : keeps_versions e (inspected dbName e).
Proof.
  intros name d Hd. unfold inspected. cbn [databases].
  destruct (stored_version e dbName =? 0) eqn:E; [|by exists d].
  destruct (decide (name = dbName)) as [->|Hne].
  - rewrite lookup_insert_eq. eexists. split; [done|].
    unfold stored_version in E. rewrite Hd in E. cbn in *. lia.
  - rewrite lookup_insert_ne by done. by exists d.
Qed.

Lemma keeps_versions_commit name storeName recs e :
  keeps_versions e (commit name storeName recs e).
Proof.
  intros n d Hd. unfold commit. cbn [databases set_databases].
  rewrite lookup_alter. case_decide; [subst|by exists d].
  rewrite Hd. eexists. split; [done|]. cbn. lia.
Qed.

Create HintDb versions.
#[local] Hint Resolve keeps_versions_opened keeps_versions_inspected
  keeps_versions_commit : versions.
#[local] Hint Extern 1 (keeps_versions _ _) =>
  apply keeps_versions_same; reflexivity : versions.

Lemma openDB_keeps_versions dbName storeName v e :
  keeps_versions e (openDB dbName storeName v e).2.
Proof.
  destruct (supported e) eqn:Hs.
  - rewrite openDB_unfold by done. cbv zeta.
    case_outcome; cbn [snd]; auto with versions.
  - rewrite openDB_unsupported by done. auto with versions.
Qed.

Lemma getCurrentDBVersion_keeps_versions dbName e :
  keeps_versions e (getCurrentDBVersion dbName e).2.
Proof.
  rewrite getCurrentDBVersion_unfold.
  case_outcome; cbn [snd]; auto with versions.
Qed.

(** A transaction of this program leaves the databases as they were or
    commits the records of one store. *)
Lemma transaction_keeps_versions db storeName mode body e :
  keeps_versions e
    (new_Promise (transaction db storeName mode body (Some (close db))) e).2.
Proof.
  unfold new_Promise, transaction. cbn [fst snd].
  case_bool_decide; [|auto with versions].
  destruct (stored_records _ _ _); [|auto with versions].
  destruct (first_violation _ _); [auto with versions|].
  cbn [snd from_option].
  destruct (tx_active _); [|auto with versions].
  eapply keeps_versions_trans; [|apply keeps_versions_same; reflexivity].
  eapply keeps_versions_trans; [|apply keeps_versions_commit].
  auto with versions.
Qed.

Lemma transact_keeps_versions storeName op db e :
  keeps_versions e (transact storeName op db e).2.
Proof. destruct op; apply transaction_keeps_versions. Qed.

Lemma await_keeps_versions {A B} (m : Async A) (k : A → Async B) e :
  keeps_versions e (m e).2 →
  (∀ a e', keeps_versions e' (k a e').2) →
  keeps_versions e (await m k e).2.
Proof.
  intros Hm Hk. unfold await. destruct (m e) as [[|a|c] e']; cbn [snd] in *; try done.
  eapply keeps_versions_trans; [exact Hm|apply Hk].
Qed.

Lemma run_keeps_versions dbName storeName op e :
  keeps_versions e (run dbName storeName op e).2.
Proof.
  rewrite run_eq. apply await_keeps_versions.
  - apply openDB_keeps_versions.
  - intros. apply transact_keeps_versions.
Qed.

Lemma addObjectStore_keeps_versions dbName newStoreName item key e :
  keeps_versions e (addObjectStore dbName newStoreName item key e).2.
Proof.
  unfold addObjectStore. apply await_keeps_versions.
  - apply getCurrentDBVersion_keeps_versions.
  - intros v e'. cbv zeta. apply await_keeps_versions.
    + apply openDB_keeps_versions.
    + intros. apply transaction_keeps_versions.
Qed.

(** [deleteDB] removes the database it names, or nothing. *)
Lemma deleteDB_databases dbName e :
  databases (deleteDB dbName e).2 = databases e ∨
  databases (deleteDB dbName e).2 = delete dbName (databases e).
Proof.
  unfold deleteDB, new_Promise, indexedDB_deleteDatabase. cbn [fst snd].
  destruct (supported e); cbn [negb]; [|by left].
  destruct (pending_fault e); cbn [fire del_onerror del_onsuccess snd]; [by left|].
  destruct (has_open_connection _ _); cbn [snd]; [by left|by right].
Qed.

(** ** The usage comments, run *)

(** [set], [getSpecific], [update], [getSpecific], [remove], [getSpecific] on
    a browser that has never seen the database: the reads resolve with the
    item written, then with the item it was replaced by, then with
    [undefined]; each of the six operations has closed its connection. *)
Example usage_scenario :
  let nkia222 := JObject [("id", JNumber 1); ("name", JString "nkia222")] in
  let session : Async (JsValue * JsValue * JsValue) :=
    let_await _ := set "testDB" "testStore" nkia (KString "init") in
    let_await first := getSpecific "testDB" "testStore" (KString "init") in
    let_await _ := update "testDB" "testStore" nkia222 (KString "init") in
    let_await second := getSpecific "testDB" "testStore" (KString "init") in
    let_await _ := remove "testDB" "testStore" (KString "init") in
    let_await third := getSpecific "testDB" "testStore" (KString "init") in
    λ e, (Resolved (first, second, third), e) in
  (session new_browser).1 = Resolved (nkia, nkia222, JUndefined) ∧
  handles (session new_browser).2 = replicate 6 ("testDB", 1%nat).
Proof. by vm_compute. Qed.

(** * The properties C1 to C10 *)

(** C1.  Exactly-once closure: every data operation is to close the
    connection it opened exactly once, whether its request succeeds or fails.
    Where the promise resolves the code does so ([run_resolved_closes_once]).
    Where the request fails it does not: here the [put] of a [set] fails with
    [QuotaExceededError]; the promise rejects with that cause, and the
    connection (number [0], the only one) has received no [close()] and is
    still open once the operation is over.  The failed request aborts the
    transaction, and [close()] is only called from [oncomplete]. *)
Theorem failed_request_leaves_connection_open :
  let e := set_faults [None; Some (DOMException QuotaExceededError)] with_store in
  let outcome := set "testDB" "testStore" nkia (KString "init") e in
  outcome.1 = Rejected (DOMException QuotaExceededError) ∧
  close_count outcome.2 0 = Some 0%nat ∧
  has_open_connection outcome.2 "testDB" = true.
Proof. by vm_compute. Qed.

(** C2.  Default version: [openDB] without a version is to issue the open
    request without one, so that the engine takes the stored version.  The
    code does not: on ["testDB"] at version [2], as [addObjectStore] leaves
    it, [openDB] without a version rejects with [VersionError], where the
    same request issued without a version, with the very handlers of
    [openDB], resolves with a connection at version [2].  The request
    [openDB] issues carries the version [1]. *)
Theorem default_open_rejects_migrated_database :
  stored_version after_migration "testDB" = 2 ∧
  (openDB "testDB" "newStore" None after_migration).1 =
    Rejected (DOMException VersionError) ∧
  (new_Promise
     (indexedDB_open "testDB" None
        {| onsuccess := Some (λ result st, (resolve result st.1, st.2));
           onerror := Some (λ error st, (reject error st.1, st.2));
           onupgradeneeded := Some (openDB_onupgradeneeded "newStore") |})
     after_migration).1 =
    Resolved {| conn_id := 2; conn_name := "testDB"; conn_version := 2 |}.
Proof. by vm_compute. Qed.

(** C3.  Error propagation: in every data operation, [update] included, a
    request that fails is to reject the returned promise with the cause.  For
    the operations built on [transactionPromise] and for the write of
    [update] the code does so ([request_error], [update_write_error]).  For
    the read of [update] it does not: when the [get] fails with
    [UnknownError] the promise of [update] stays pending, where
    [getSpecific], meeting the same failure on the same [get], rejects with
    [UnknownError]. *)
Theorem update_swallows_read_error :
  let e := set_faults [None; Some (DOMException UnknownError)] with_store in
  (update "testDB" "testStore" nkia (KString "init") e).1 = Pending ∧
  (getSpecific "testDB" "testStore" (KString "init") e).1 =
    Rejected (DOMException UnknownError).
Proof. by vm_compute. Qed.

(** C4.  A [set] that resolved, followed by a [getSpecific] of the same key
    in the same store that the environment does not fail, resolves with the
    item that was written, for every item the engine can clone and every
    key. *)
Theorem set_then_getSpecific (dbName storeName : string) (item : JsValue)
    (key : IDBValidKey) (e e1 : Engine) (r : JsValue) :
  serializable item = true →
  set dbName storeName item key e = (Resolved r, e1) →
  quiet 2 e1 →
  ∃ e2, getSpecific dbName storeName key e1 = (Resolved item, e2).
Proof.
  intros _ Hset Hq.
  apply (run_resolved _ _ (OpSet item key)) in Hset
    as (Hs & _ & Hle & _ & _ & recs & Hr & _ & ->).
  eexists.
  change (getSpecific dbName storeName key)
    with (run dbName storeName (OpGetSpecific key)).
  rewrite (run_quiet dbName storeName (OpGetSpecific key) _ (<[key := item]> recs)).
  - cbn [request_of perform fst]. by rewrite lookup_insert_eq.
  - done.
  - rewrite stored_version_completed, stored_version_iter_past_request.
    by apply stored_version_opened.
  - apply (stored_records_completed
             {| conn_id := length (handles e); conn_name := dbName; conn_version := 1 |}).
    cbn [conn_name]. rewrite stored_records_iter_past_request, Hr. by eexists.
  - done.
  - exact Hq.
Qed.

Lemma set_then_getSpecific_witness :
  serializable nkia = true ∧
  quiet 2 (set "testDB" "testStore" nkia (KString "init") new_browser).2 ∧
  ∃ e2, getSpecific "testDB" "testStore" (KString "init")
          (set "testDB" "testStore" nkia (KString "init") new_browser).2 =
        (Resolved nkia, e2).
Proof.
  split; [reflexivity|]. split; [reflexivity|].
  apply (set_then_getSpecific "testDB" "testStore" nkia (KString "init") new_browser _
           (JString "init")); reflexivity.
Defined.

(** C5.  Where [set] resolves, on a key the store does not hold, [update]
    with the same arguments resolves too when the environment fails neither
    of its requests: with the same value, leaving the same databases and the
    same connection handles as [set] does. *)
Theorem update_absent_key_is_set (dbName storeName : string) (item : JsValue)
    (key : IDBValidKey) (e e1 : Engine) (r : JsValue) :
  stored_records e dbName storeName ≫= (λ recs, recs !! key) = None →
  set dbName storeName item key e = (Resolved r, e1) →
  quiet 3 e →
  ∃ e2,
    update dbName storeName item key e = (Resolved r, e2) ∧
    databases e2 = databases e1 ∧ handles e2 = handles e1.
Proof.
  intros _ Hset Hq.
  apply (run_resolved _ _ (OpSet item key)) in Hset
    as (Hs & Hf & Hle & Hopen & Hv & recs & Hr & -> & ->).
  apply quiet_S in Hq as [_ Hq].
  change (update dbName storeName item key)
    with (run dbName storeName (OpUpdate item key)).
  rewrite run_opened by done.
  erewrite transact_quiet; [|apply opened_close_count|exact Hr|done..].
  eexists. split; [reflexivity|]. by split.
Qed.

Lemma update_absent_key_is_set_witness :
  stored_records with_store "testDB" "testStore" ≫= (λ recs, recs !! KString "init")
    = None ∧
  quiet 3 with_store ∧
  ∃ e2,
    update "testDB" "testStore" nkia (KString "init") with_store =
      (Resolved (JString "init"), e2) ∧
    databases e2 =
      databases (set "testDB" "testStore" nkia (KString "init") with_store).2 ∧
    handles e2 =
      handles (set "testDB" "testStore" nkia (KString "init") with_store).2.
Proof.
  split; [reflexivity|]. split; [reflexivity|].
  apply (update_absent_key_is_set "testDB" "testStore" nkia (KString "init")
           with_store); reflexivity.
Defined.

(** C6.  The handler [openDB] attaches to [upgradeneeded] never throws, and
    run on the schema it has left it changes nothing.  Through
    [addObjectStore]: after a call that resolved, a second call with the same
    store name resolves as well (given an item the engine can clone, an
    environment that fails none of its three requests, and a version that can
    still go up); the database has the same store names as before, the store
    keeps the records it had and gains the new seed, and every other store is
    as it was. *)
Theorem migration_twice (dbName storeName : string) (item item' : JsValue)
    (key key' : IDBValidKey) (e e1 : Engine) (r : JsValue) :
  addObjectStore dbName storeName item key e = (Resolved r, e1) →
  serializable item' = true →
  quiet 3 e1 →
  stored_version e1 dbName < MAX_SAFE_INTEGER →
  (∀ s : Schema,
     ∃ s1, openDB_onupgradeneeded storeName s = inr s1 ∧
           openDB_onupgradeneeded storeName s1 = inr s1) ∧
  ∃ recs e2,
    stored_records e1 dbName storeName = Some recs ∧
    addObjectStore dbName storeName item' key' e1 = (Resolved (key_value key'), e2) ∧
    objectStoreNames (stored_schema e2 dbName) =
      objectStoreNames (stored_schema e1 dbName) ∧
    stored_records e2 dbName storeName = Some (<[key' := item']> recs) ∧
    ∀ other, other ≠ storeName →
      stored_schema e2 dbName !! other = stored_schema e1 dbName !! other.
Proof.
  intros Ha Hser Hq Hmax. split.
  { intros s. exists (ensure_store storeName s).
    rewrite !openDB_onupgradeneeded_eq. split; [done|].
    f_equal. apply ensure_store_existing. rewrite ensure_store_lookup. by eexists. }
  apply addObjectStore_resolved in Ha as (Hs & Hopen & Hrange & _ & ->).
  set (e1 := migrated dbName storeName item key e) in *.
  pose proof (stored_records_migrated dbName storeName item key e) as Hrecs.
  assert (stored_schema e1 dbName !! storeName =
            Some (<[key := item]> (default ∅ (stored_schema e dbName !! storeName))))
    as Hschema.
  { unfold e1. rewrite stored_schema_migrated. apply lookup_insert_eq. }
  assert (current_version e1 dbName = stored_version e1 dbName) as Hcv.
  { unfold current_version, e1. rewrite stored_version_migrated.
    cbn [version_in_range] in Hrange. destruct (_ =? 0) eqn:E; lia. }
  apply quiet_S in Hq as [Hf1 Hq]. apply quiet_S in Hq as [Hf2 Hq].
  apply quiet_S in Hq as [Hf3 _].
  eexists _, (migrated dbName storeName item' key' e1).
  split; [exact Hrecs|]. split; [|split; [|split]].
  - rewrite addObjectStore_unfold; [|done| done |].
    + cbv zeta. rewrite Hcv.
      replace (version_in_range _) with true; last first.
      { symmetry. unfold e1 in *. rewrite stored_version_migrated in *.
        cbn [version_in_range] in *. lia. }
      change (pending_fault (inspected dbName e1)) with (pending_fault (past_request e1)).
      rewrite Hf2.
      unfold e1 at 1. rewrite has_open_connection_migrated, Hopen, Hser.
      change (pending_fault (opened ?d ?s ?n (inspected dbName e1)))
        with (pending_fault (past_request (past_request e1))).
      by rewrite Hf3.
    + intros _. unfold e1. by rewrite has_open_connection_migrated.
  - rewrite stored_schema_migrated. unfold objectStoreNames.
    apply dom_insert_lookup_L. rewrite Hschema. by eexists.
  - rewrite stored_records_migrated. by rewrite Hschema.
  - intros other Hne. rewrite stored_schema_migrated. by apply lookup_insert_ne.
Qed.

Lemma migration_twice_witness :
  serializable (JString "again") = true ∧
  quiet 3 after_migration ∧
  stored_version after_migration "testDB" < MAX_SAFE_INTEGER ∧
  ∃ recs e2,
    stored_records after_migration "testDB" "newStore" = Some recs ∧
    addObjectStore "testDB" "newStore" (JString "again") (KNumber 7) after_migration =
      (Resolved (JNumber 7), e2) ∧
    objectStoreNames (stored_schema e2 "testDB") =
      objectStoreNames (stored_schema after_migration "testDB") ∧
    stored_records e2 "testDB" "newStore" = Some (<[KNumber 7 := JString "again"]> recs) ∧
    ∀ other, other ≠ "newStore" →
      stored_schema e2 "testDB" !! other = stored_schema after_migration "testDB" !! other.
Proof.
  split; [reflexivity|]. split; [reflexivity|]. split; [reflexivity|].
  apply (migration_twice "testDB" "newStore" nkia (JString "again") (KString "init")
           (KNumber 7) with_store after_migration (JString "init"));
    reflexivity.
Defined.





(** C9.  [openDB] without a version asks the engine for version [1], the
    same request as with the version [1] spelled out.  On a database whose
    stored version is greater than [1], each of [set], [getSpecific],
    [getAll], [update], [remove] and [clear] therefore rejects at the open:
    no connection is handed out and no database is touched; the cause is
    [VersionError] unless the platform or the environment fails the open
    first. *)
Theorem default_open_is_version_1 (dbName storeName : string) (op : Operation)
    (e : Engine) :
  1 < stored_version e dbName →
  openDB dbName storeName None e = openDB dbName storeName (Some 1) e ∧
  ∃ c e',
    run dbName storeName op e = (Rejected c, e') ∧
    databases e' = databases e ∧ handles e' = handles e ∧
    (supported e = true → pending_fault e = None →
     c = DOMException VersionError).
Proof.
  intros Hv. split; [reflexivity|].
  destruct (openDB_stale dbName storeName e Hv) as (c & e' & Ho & Hrest).
  exists c, e'. split; [|exact Hrest].
  rewrite run_eq. by apply await_rejected.
Qed.

Lemma default_open_is_version_1_witness :
  1 < stored_version after_migration "testDB" ∧
  ∃ c e',
    run "testDB" "newStore" (OpGetSpecific (KString "init")) after_migration =
      (Rejected c, e') ∧
    databases e' = databases after_migration ∧ handles e' = handles after_migration ∧
    (supported after_migration = true → pending_fault after_migration = None →
     c = DOMException VersionError).
Proof.
  split; [reflexivity|].
  apply (default_open_is_version_1 "testDB" "newStore"
           (OpGetSpecific (KString "init")) after_migration).
  reflexivity.
Defined.

(** C10.  When the [get] request of [update] fails, the promise [update]
    returned stays pending for ever: the read has no [error] handler, and the
    handlers of the write are only attached in the [success] handler of the
    read, which does not run.  (The transaction aborts, so the connection is
    not closed either.) *)
Theorem update_read_error_never_settles (dbName storeName : string) (item : JsValue)
    (key : IDBValidKey) (e e1 : Engine) (db : IDBDatabase) (c : JsError) :
  openDB dbName storeName None e = (Resolved db, e1) →
  is_Some (stored_records e1 dbName storeName) →
  pending_fault e1 = Some c →
  update dbName storeName item key e = (Pending, past_request e1) ∧
  close_count (past_request e1) (conn_id db) = Some 0%nat.
Proof.
  intros Ho [recs Hr] Hf.
  destruct (openDB_resolved _ _ _ _ _ _ Ho) as (_ & _ & _ & _ & _ & -> & ->).
  split; [|exact (opened_close_count dbName storeName _ e)].
  change (update dbName storeName item key)
    with (run dbName storeName (OpUpdate item key)).
  rewrite run_eq, (await_resolved _ _ _ _ _ Ho).
  erewrite update_transaction_unfold; [|apply opened_close_count|exact Hr].
  by rewrite Hf.
Qed.

Lemma update_read_error_never_settles_witness :
  let e := set_faults [None; Some (DOMException UnknownError)] with_store in
  let db := {| conn_id := 0; conn_name := "testDB"; conn_version := 1 |} in
  let e1 := opened "testDB" "testStore" 1 e in
  pending_fault e1 = Some (DOMException UnknownError) ∧
  update "testDB" "testStore" nkia (KString "init") e = (Pending, past_request e1) ∧
  close_count (past_request e1) (conn_id db) = Some 0%nat.
Proof.
  split; [reflexivity|].
  apply (update_read_error_never_settles "testDB" "testStore" nkia (KString "init")
           (set_faults [None; Some (DOMException UnknownError)] with_store)
           (opened "testDB" "testStore" 1
              (set_faults [None; Some (DOMException UnknownError)] with_store))
           {| conn_id := 0; conn_name := "testDB"; conn_version := 1 |}
           (DOMException UnknownError)).
  - reflexivity.
  - eexists. reflexivity.
  - reflexivity.
Defined.

(** * Further properties of the module *)

(** ** Helpers *)

Lemma supported_completed db storeName recs e :
  supported (completed db storeName recs e) = supported e.
Proof. reflexivity. Qed.

(** What the store holds once [openDB] has connected at version [1]. *)
Lemma opened_records_lookup dbName storeName e recs (k : IDBValidKey) :
  stored_version e dbName ≤ 1 →
  stored_records (opened dbName storeName 1 e) dbName storeName = Some recs →
  recs !! k = stored_records e dbName storeName ≫= (λ old, old !! k).
Proof.
  intros Hle. destruct (decide (stored_version e dbName < 1)) as [Hlt|Hge].
  - rewrite stored_records_opened_upgrade by done. intros [= <-].
    unfold stored_schema, stored_records.
    destruct (databases e !! dbName) as [d|]; cbn; [|done].
    by destruct (objectStores d !! storeName).
  - rewrite stored_records_opened_same by lia. by intros ->.
Qed.

Lemma supported_iter_past_request k e :
  supported (Nat.iter k past_request e) = supported e.
Proof. induction k; [done|]. by cbn. Qed.

(** An operation after one that resolved, on the same store, with an
    environment that fails nothing. *)
Lemma run_after_resolved dbName storeName op1 op2 e r e1 :
  run dbName storeName op1 e = (Resolved r, e1) →
  violation (mode_of op2) (request_of op2) = None →
  quiet (S (requests_of op2)) e1 →
  ∃ recs e2,
    stored_records (opened dbName storeName 1 e) dbName storeName = Some recs ∧
    stored_version e dbName ≤ 1 ∧
    run dbName storeName op2 e1 =
      (Resolved (perform (request_of op2) (perform (request_of op1) recs).2).1, e2) ∧
    stored_records e2 dbName storeName =
      Some (perform (request_of op2) (perform (request_of op1) recs).2).2.
Proof.
  intros H1 Hv Hq.
  apply run_resolved in H1 as (Hs & _ & Hle & _ & _ & recs & Hr & _ & ->).
  set (db := {| conn_id := length (handles e); conn_name := dbName; conn_version := 1 |}).
  set (e1 := completed db storeName (perform (request_of op1) recs).2
               (Nat.iter (requests_of op1) past_request (opened dbName storeName 1 e)))
    in *.
  assert (supported e1 = true) as Hs1.
  { unfold e1. by rewrite supported_completed, supported_iter_past_request. }
  assert (stored_version e1 dbName = 1) as Hv1.
  { unfold e1. rewrite stored_version_completed, stored_version_iter_past_request.
    by apply stored_version_opened. }
  assert (stored_records e1 dbName storeName = Some (perform (request_of op1) recs).2)
    as Hr1.
  { apply (stored_records_completed db).
    cbn [conn_name db]. rewrite stored_records_iter_past_request, Hr. by eexists. }
  pose proof (run_quiet dbName storeName op2 e1 _ Hs1 Hv1 Hr1 Hv Hq) as Hrun.
  cbv zeta in Hrun.
  eexists recs, _. split; [done|]. split; [done|]. split; [exact Hrun|].
  apply (stored_records_completed
           {| conn_id := length (handles e1); conn_name := dbName; conn_version := 1 |}).
  cbn [conn_name]. rewrite stored_records_iter_past_request.
  rewrite stored_records_opened_same by lia. by eexists.
Qed.

(** ** Closing and error propagation where the code has them *)

(** X1.  Every data operation whose promise resolves has closed the
    connection it opened exactly once: the connection is the one handle the
    operation adds, it has received one [close()], and the handles that were
    there before are as they were. *)
Theorem resolved_operation_closes_once (dbName storeName : string) (op : Operation)
    (e e' : Engine) (r : JsValue) :
  run dbName storeName op e = (Resolved r, e') →
  handles e' = handles e ++ [(dbName, 1%nat)] ∧
  close_count e' (length (handles e)) = Some 1%nat ∧
  has_open_connection e' dbName = has_open_connection e dbName.
Proof.
  intros H. apply run_resolved_closes_once in H.
  unfold close_count, has_open_connection. rewrite H. repeat split.
  - by rewrite list_lookup_middle.
  - rewrite existsb_app. cbn [existsb]. by rewrite is_open_closed, !orb_false_r.
Qed.

Lemma resolved_operation_closes_once_witness :
  let e' := (getAll "testDB" "testStore" with_store).2 in
  handles e' = handles with_store ++ [("testDB", 1%nat)] ∧
  close_count e' (length (handles with_store)) = Some 1%nat ∧
  has_open_connection e' "testDB" = has_open_connection with_store "testDB".
Proof.
  apply (resolved_operation_closes_once "testDB" "testStore" OpGetAll with_store
           (getAll "testDB" "testStore" with_store).2 (JArray [])).
  by vm_compute.
Defined.

(** X2.  In [set], [getSpecific], [getAll], [remove] and [clear] a request
    that fails rejects the returned promise with the cause the engine
    reported, and no database is changed. *)
Theorem request_error_rejects_with_cause (dbName storeName : string) (op : Operation)
    (e e1 : Engine) (db : IDBDatabase) (c : JsError) :
  requests_of op = 1%nat →
  openDB dbName storeName None e = (Resolved db, e1) →
  is_Some (stored_records e1 dbName storeName) →
  violation (mode_of op) (request_of op) = None →
  pending_fault e1 = Some c →
  ∃ e',
    run dbName storeName op e = (Rejected c, e') ∧ databases e' = databases e1.
Proof.
  intros Hop Ho Hr Hv Hf.
  destruct (request_error _ _ op _ _ _ _ Ho Hr Hv Hf) as [Hrun _].
  exists (past_request e1). split; [|done].
  rewrite Hrun. by destruct op.
Qed.

Lemma request_error_rejects_with_cause_witness :
  let e := set_faults [None; Some (DOMException UnknownError)] with_store in
  ∃ e',
    run "testDB" "testStore" OpClear e = (Rejected (DOMException UnknownError), e') ∧
    databases e' = databases (opened "testDB" "testStore" 1 e).
Proof.
  apply (request_error_rejects_with_cause "testDB" "testStore" OpClear
           (set_faults [None; Some (DOMException UnknownError)] with_store)
           (opened "testDB" "testStore" 1
              (set_faults [None; Some (DOMException UnknownError)] with_store))
           {| conn_id := 0; conn_name := "testDB"; conn_version := 1 |}
           (DOMException UnknownError)).
  - reflexivity.
  - reflexivity.
  - eexists. reflexivity.
  - reflexivity.
  - reflexivity.
Defined.

(** X3.  When the read of [update] succeeds and its write fails, the promise
    rejects with the cause of the write, and nothing is written. *)
Theorem update_write_error_rejects (dbName storeName : string) (item : JsValue)
    (key : IDBValidKey) (e e1 : Engine) (db : IDBDatabase) (c : JsError) :
  openDB dbName storeName None e = (Resolved db, e1) →
  is_Some (stored_records e1 dbName storeName) →
  serializable item = true →
  pending_fault e1 = None →
  pending_fault (past_request e1) = Some c →
  ∃ e',
    update dbName storeName item key e = (Rejected c, e') ∧
    databases e' = databases e1.
Proof.
  intros Ho Hr Hser Hf1 Hf2.
  destruct (update_write_error _ _ item key _ _ _ _ Ho Hr Hser Hf1 Hf2) as [Hrun _].
  by exists (past_request (past_request e1)).
Qed.

Lemma update_write_error_rejects_witness :
  let e := set_faults [None; None; Some (DOMException QuotaExceededError)] with_store in
  ∃ e',
    update "testDB" "testStore" nkia (KString "init") e =
      (Rejected (DOMException QuotaExceededError), e') ∧
    databases e' = databases (opened "testDB" "testStore" 1 e).
Proof.
  apply (update_write_error_rejects "testDB" "testStore" nkia (KString "init")
           (set_faults [None; None; Some (DOMException QuotaExceededError)] with_store)
           (opened "testDB" "testStore" 1
              (set_faults [None; None; Some (DOMException QuotaExceededError)]
                 with_store))
           {| conn_id := 0; conn_name := "testDB"; conn_version := 1 |}
           (DOMException QuotaExceededError)).
  - reflexivity.
  - eexists. reflexivity.
  - reflexivity.
  - reflexivity.
  - reflexivity.
Defined.

(** ** One operation after another *)

(** X4.  After a [clear] that resolved, a [getAll] of the same store that
    the environment does not fail resolves with the empty array. *)
Theorem clear_then_getAll (dbName storeName : string) (e e1 : Engine) (r : JsValue) :
  clear dbName storeName e = (Resolved r, e1) →
  quiet 2 e1 →
  ∃ e2, getAll dbName storeName e1 = (Resolved (JArray []), e2).
Proof.
  intros Hc Hq.
  destruct (run_after_resolved dbName storeName OpClear OpGetAll e r e1 Hc eq_refl Hq)
    as (recs & e2 & _ & _ & Hrun & _).
  exists e2. cbn [run] in Hrun. rewrite Hrun.
  cbn [request_of perform fst snd]. by rewrite map_to_list_empty.
Qed.

Lemma clear_then_getAll_witness :
  ∃ e2, getAll "testDB" "testStore" (clear "testDB" "testStore" after_first_set).2 =
          (Resolved (JArray []), e2).
Proof.
  apply (clear_then_getAll "testDB" "testStore" after_first_set
           (clear "testDB" "testStore" after_first_set).2 JUndefined);
    by vm_compute.
Defined.

(** X5.  After a [remove] that resolved, a [getSpecific] of the removed key
    that the environment does not fail resolves with [undefined]. *)
Theorem remove_then_getSpecific (dbName storeName : string) (key : IDBValidKey)
    (e e1 : Engine) (r : JsValue) :
  remove dbName storeName key e = (Resolved r, e1) →
  quiet 2 e1 →
  ∃ e2, getSpecific dbName storeName key e1 = (Resolved JUndefined, e2).
Proof.
  intros Hc Hq.
  destruct (run_after_resolved dbName storeName (OpRemove key) (OpGetSpecific key)
              e r e1 Hc eq_refl Hq) as (recs & e2 & _ & _ & Hrun & _).
  exists e2. cbn [run] in Hrun. rewrite Hrun.
  cbn [request_of perform fst snd]. by rewrite lookup_delete_eq.
Qed.

Lemma remove_then_getSpecific_witness :
  ∃ e2, getSpecific "testDB" "testStore" (KString "init")
          (remove "testDB" "testStore" (KString "init") after_first_set).2 =
        (Resolved JUndefined, e2).
Proof.
  apply (remove_then_getSpecific "testDB" "testStore" (KString "init") after_first_set
           (remove "testDB" "testStore" (KString "init") after_first_set).2 JUndefined);
    by vm_compute.
Defined.

(** X6.  A [set] that resolved leaves every other key of the store as it
    was: a [getSpecific] of another key resolves with what the store held
    under that key before the [set], [undefined] when it held nothing. *)
Theorem set_keeps_other_keys (dbName storeName : string) (item : JsValue)
    (key key' : IDBValidKey) (e e1 : Engine) (r : JsValue) :
  key' ≠ key →
  set dbName storeName item key e = (Resolved r, e1) →
  quiet 2 e1 →
  ∃ e2,
    getSpecific dbName storeName key' e1 =
      (Resolved (default JUndefined
                   (stored_records e dbName storeName ≫= (λ recs, recs !! key'))),
       e2).
Proof.
  intros Hne Hc Hq.
  destruct (run_after_resolved dbName storeName (OpSet item key) (OpGetSpecific key')
              e r e1 Hc eq_refl Hq) as (recs & e2 & Hr & Hle & Hrun & _).
  exists e2. cbn [run] in Hrun. rewrite Hrun.
  cbn [request_of perform fst snd]. rewrite lookup_insert_ne by done.
  by rewrite (opened_records_lookup dbName storeName e recs key' Hle Hr).
Qed.

Lemma set_keeps_other_keys_witness :
  KString "init" ≠ KNumber 2 ∧
  ∃ e2,
    getSpecific "testDB" "testStore" (KString "init")
      (set "testDB" "testStore" JNull (KNumber 2) after_first_set).2 =
    (Resolved (default JUndefined
                 (stored_records after_first_set "testDB" "testStore"
                    ≫= (λ recs, recs !! KString "init"))), e2).
Proof.
  split; [done|].
  apply (set_keeps_other_keys "testDB" "testStore" JNull (KNumber 2) (KString "init")
           after_first_set
           (set "testDB" "testStore" JNull (KNumber 2) after_first_set).2 (JNumber 2));
    [done|by vm_compute..].
Defined.

(** X7.  An [update] that resolved, followed by a [getSpecific] of the same
    key that the environment does not fail, resolves with the item of the
    [update], whatever the store held under the key before. *)
Theorem update_then_getSpecific (dbName storeName : string) (item : JsValue)
    (key : IDBValidKey) (e e1 : Engine) (r : JsValue) :
  update dbName storeName item key e = (Resolved r, e1) →
  quiet 2 e1 →
  ∃ e2, getSpecific dbName storeName key e1 = (Resolved item, e2).
Proof.
  intros Hc Hq.
  destruct (run_after_resolved dbName storeName (OpUpdate item key) (OpGetSpecific key)
              e r e1 Hc eq_refl Hq) as (recs & e2 & _ & _ & Hrun & _).
  exists e2. cbn [run] in Hrun. rewrite Hrun.
  cbn [request_of perform fst snd]. by rewrite lookup_insert_eq.
Qed.

Lemma update_then_getSpecific_witness :
  ∃ e2,
    getSpecific "testDB" "testStore" (KString "init")
      (update "testDB" "testStore" (JString "nkia222") (KString "init")
         after_first_set).2 =
    (Resolved (JString "nkia222"), e2).
Proof.
  apply (update_then_getSpecific "testDB" "testStore" (JString "nkia222")
           (KString "init") after_first_set
           (update "testDB" "testStore" (JString "nkia222") (KString "init")
              after_first_set).2
           (JString "init"));
    by vm_compute.
Defined.

(** ** Reads *)

(** X8.  On a database at version [1] whose store does not hold the key,
    [getSpecific] resolves with [undefined] when the environment fails
    nothing, and changes no database: a missing key is not an error. *)
Theorem getSpecific_missing_key (dbName storeName : string) (key : IDBValidKey)
    (e : Engine) (recs : Records) :
  supported e = true →
  stored_version e dbName = 1 →
  stored_records e dbName storeName = Some recs →
  recs !! key = None →
  quiet 2 e →
  ∃ e',
    getSpecific dbName storeName key e = (Resolved JUndefined, e') ∧
    databases e' = databases e.
Proof.
  intros Hs Hv Hr Hk Hq.
  change (getSpecific dbName storeName key)
    with (run dbName storeName (OpGetSpecific key)).
  rewrite (run_quiet _ _ _ _ recs) by done.
  eexists. split; [cbn [request_of perform fst]; by rewrite Hk|].
  cbn [request_of perform snd]. rewrite databases_completed_same.
  - rewrite iter_past_request_databases. apply databases_opened_same. lia.
  - cbn [conn_name].
    by rewrite stored_records_iter_past_request, stored_records_opened_same by lia.
Qed.

Lemma getSpecific_missing_key_witness :
  ∃ e',
    getSpecific "testDB" "testStore" (KString "other") after_first_set =
      (Resolved JUndefined, e') ∧
    databases e' = databases after_first_set.
Proof.
  apply (getSpecific_missing_key "testDB" "testStore" (KString "other") after_first_set
           {[ KString "init" := nkia ]}); by vm_compute.
Defined.

(** X9.  On a database at version [1] that has the store, [getAll] resolves,
    when the environment fails nothing, with an array that holds exactly the
    values of the store, each as often as it is stored, and changes no
    database. *)
Theorem getAll_lists_the_store (dbName storeName : string) (e : Engine)
    (recs : Records) :
  supported e = true →
  stored_version e dbName = 1 →
  stored_records e dbName storeName = Some recs →
  quiet 2 e →
  ∃ values e',
    getAll dbName storeName e = (Resolved (JArray values), e') ∧
    values ≡ₚ (map_to_list recs).*2 ∧
    databases e' = databases e.
Proof.
  intros Hs Hv Hr Hq.
  change (getAll dbName storeName) with (run dbName storeName OpGetAll).
  rewrite (run_quiet _ _ _ _ recs) by done.
  eexists _, _. split; [reflexivity|]. split.
  - by rewrite merge_sort_Permutation.
  - cbn [request_of perform snd]. rewrite databases_completed_same.
    + rewrite iter_past_request_databases. apply databases_opened_same. lia.
    + cbn [conn_name].
      by rewrite stored_records_iter_past_request, stored_records_opened_same by lia.
Qed.

Lemma getAll_lists_the_store_witness :
  ∃ values e',
    getAll "testDB" "testStore" after_first_set = (Resolved (JArray values), e') ∧
    values ≡ₚ (map_to_list ({[ KString "init" := nkia ]} : Records)).*2 ∧
    databases e' = databases after_first_set.
Proof.
  apply (getAll_lists_the_store "testDB" "testStore" after_first_set
           {[ KString "init" := nkia ]}); by vm_compute.
Defined.

(** ** Databases and stores that are not there *)

(** An operation on a database that does not exist: [openDB] creates the
    database at version [1] with the store, empty, and the operation runs on
    it. *)
Lemma run_creates_database dbName storeName op e :
  supported e = true →
  databases e !! dbName = None →
  has_open_connection e dbName = false →
  violation (mode_of op) (request_of op) = None →
  quiet (S (requests_of op)) e →
  ∃ e',
    run dbName storeName op e = (Resolved (perform (request_of op) ∅).1, e') ∧
    databases e' =
      <[dbName := {| version := 1;
                     objectStores := {[ storeName := (perform (request_of op) ∅).2 ]} |}]>
        (databases e).
Proof.
  intros Hs Hd Hopen Hv Hq. apply quiet_S in Hq as [Hf Hq].
  assert (stored_version e dbName = 0) as H0 by (unfold stored_version; by rewrite Hd).
  assert (stored_schema e dbName = ∅) as Hsch by (unfold stored_schema; by rewrite Hd).
  rewrite run_opened by (done || lia).
  erewrite transact_quiet; [|apply opened_close_count| |done|done]; last first.
  { cbn [conn_name]. rewrite stored_records_opened_upgrade by lia.
    by rewrite Hsch, lookup_empty. }
  eexists. split; [reflexivity|].
  unfold completed, close, commit. cbn [databases set_databases set_handles conn_name].
  rewrite iter_past_request_databases. unfold opened. cbn [databases].
  rewrite H0, Hsch. cbn [Z.ltb Z.compare].
  rewrite alter_insert_eq. cbn [version objectStores].
  unfold ensure_store, contains, objectStoreNames.
  rewrite bool_decide_eq_false_2 by set_solver.
  by rewrite insert_insert_eq, insert_empty.
Qed.

(** X10.  The first [set] on a database that does not exist resolves with
    the key (for an item the engine can clone, an environment that fails
    nothing) and creates the database: version [1], one store of the given
    name, one record. *)
Theorem first_set_creates_database (dbName storeName : string) (item : JsValue)
    (key : IDBValidKey) (e : Engine) :
  supported e = true →
  databases e !! dbName = None →
  has_open_connection e dbName = false →
  serializable item = true →
  quiet 2 e →
  ∃ e',
    set dbName storeName item key e = (Resolved (key_value key), e') ∧
    databases e' =
      <[dbName := {| version := 1;
                     objectStores := {[ storeName := {[ key := item ]} ]} |}]>
        (databases e).
Proof.
  intros Hs Hd Hopen Hser Hq.
  destruct (run_creates_database dbName storeName (OpSet item key) e Hs Hd Hopen)
    as (e' & Hrun & Hdb); [by cbn; rewrite Hser|done|].
  exists e'. split; [exact Hrun|].
  rewrite Hdb. cbn [request_of perform snd]. by rewrite insert_empty.
Qed.

Lemma first_set_creates_database_witness :
  ∃ e',
    set "testDB" "testStore" nkia (KString "init") new_browser =
      (Resolved (JString "init"), e') ∧
    databases e' =
      <[ "testDB" := {| version := 1;
                        objectStores := {[ "testStore" := {[ KString "init" := nkia ]} ]} |}]>
        (databases new_browser).
Proof.
  apply (first_set_creates_database "testDB" "testStore" nkia (KString "init")
           new_browser); by vm_compute.
Defined.

(** X11.  A read creates as well: [getSpecific] on a database that does not
    exist resolves with [undefined] and leaves the database behind, at
    version [1] with the store, empty. *)
Theorem getSpecific_creates_database (dbName storeName : string) (key : IDBValidKey)
    (e : Engine) :
  supported e = true →
  databases e !! dbName = None →
  has_open_connection e dbName = false →
  quiet 2 e →
  ∃ e',
    getSpecific dbName storeName key e = (Resolved JUndefined, e') ∧
    databases e' =
      <[dbName := {| version := 1; objectStores := {[ storeName := ∅ ]} |}]>
        (databases e).
Proof.
  intros Hs Hd Hopen Hq.
  destruct (run_creates_database dbName storeName (OpGetSpecific key) e Hs Hd Hopen)
    as (e' & Hrun & Hdb); [done..|].
  exists e'. split; [exact Hrun|]. by rewrite Hdb.
Qed.

Lemma getSpecific_creates_database_witness :
  ∃ e',
    getSpecific "testDB" "testStore" (KString "init") new_browser =
      (Resolved JUndefined, e') ∧
    databases e' =
      <[ "testDB" := {| version := 1; objectStores := {[ "testStore" := ∅ ]} |}]>
        (databases new_browser).
Proof.
  apply (getSpecific_creates_database "testDB" "testStore" (KString "init")
           new_browser); by vm_compute.
Defined.

(** On a database at version [1] without the store, [db.transaction]
    throws. *)
Lemma run_missing_store dbName storeName op e :
  supported e = true →
  pending_fault e = None →
  stored_version e dbName = 1 →
  stored_records e dbName storeName = None →
  run dbName storeName op e =
    (Rejected (DOMException NotFoundError), opened dbName storeName 1 e).
Proof.
  intros Hs Hf Hv Hr.
  rewrite run_opened by (done || lia).
  apply transact_no_store; [apply opened_close_count|].
  cbn [conn_name]. by rewrite stored_records_opened_same by lia.
Qed.

(** X12.  The store is only created together with the database.  On a
    database that exists at version [1] without the store, every data
    operation rejects with [NotFoundError]; no database is changed, and the
    connection the operation opened is left open. *)
Theorem missing_store_rejects (dbName storeName : string) (op : Operation)
    (e : Engine) :
  supported e = true →
  pending_fault e = None →
  stored_version e dbName = 1 →
  stored_records e dbName storeName = None →
  ∃ e',
    run dbName storeName op e = (Rejected (DOMException NotFoundError), e') ∧
    databases e' = databases e ∧
    close_count e' (length (handles e)) = Some 0%nat.
Proof.
  intros Hs Hf Hv Hr.
  rewrite run_missing_store by done.
  eexists. split; [reflexivity|]. split.
  - apply databases_opened_same. lia.
  - apply opened_close_count.
Qed.

Lemma missing_store_rejects_witness :
  ∃ e',
    run "testDB" "otherStore" (OpSet nkia (KString "init")) with_store =
      (Rejected (DOMException NotFoundError), e') ∧
    databases e' = databases with_store ∧
    close_count e' (length (handles with_store)) = Some 0%nat.
Proof.
  apply (missing_store_rejects "testDB" "otherStore" (OpSet nkia (KString "init"))
           with_store); by vm_compute.
Defined.

(** X13.  [getCurrentDBVersion] on a database that does not exist resolves
    with [1] and creates the database at version [1] without any store; its
    connection is closed.  A data operation that follows finds the database
    at version [1] without its store and rejects with [NotFoundError]. *)
Theorem inspection_creates_empty_database (dbName storeName : string) (op : Operation)
    (e : Engine) :
  supported e = true →
  databases e !! dbName = None →
  has_open_connection e dbName = false →
  quiet 2 e →
  ∃ e1 e2,
    getCurrentDBVersion dbName e = (Resolved 1, e1) ∧
    databases e1 = <[dbName := {| version := 1; objectStores := ∅ |}]> (databases e) ∧
    handles e1 = handles e ++ [(dbName, 1%nat)] ∧
    run dbName storeName op e1 = (Rejected (DOMException NotFoundError), e2).
Proof.
  intros Hs Hd Hopen Hq. apply quiet_S in Hq as [Hf1 Hq]. apply quiet_S in Hq as [Hf2 _].
  assert (stored_version e dbName = 0) as H0 by (unfold stored_version; by rewrite Hd).
  assert (stored_schema e dbName = ∅) as Hsch by (unfold stored_schema; by rewrite Hd).
  assert (databases (inspected dbName e) =
            <[dbName := {| version := 1; objectStores := ∅ |}]> (databases e)) as Hdb.
  { unfold inspected. cbn [databases]. by rewrite H0, Hsch. }
  exists (inspected dbName e), (opened dbName storeName 1 (inspected dbName e)).
  split; [|split; [done|split; [done|]]].
  - rewrite getCurrentDBVersion_unfold, Hs, Hf1, Hopen, andb_false_r.
    unfold current_version. by rewrite H0.
  - apply run_missing_store; try done.
    + rewrite stored_version_inspected. unfold current_version. by rewrite H0.
    + unfold stored_records. rewrite Hdb, lookup_insert_eq. cbn. apply lookup_empty.
Qed.

Lemma inspection_creates_empty_database_witness :
  ∃ e1 e2,
    getCurrentDBVersion "testDB" new_browser = (Resolved 1, e1) ∧
    databases e1 =
      <[ "testDB" := {| version := 1; objectStores := ∅ |}]> (databases new_browser) ∧
    handles e1 = handles new_browser ++ [("testDB", 1%nat)] ∧
    run "testDB" "testStore" (OpSet nkia (KString "init")) e1 =
      (Rejected (DOMException NotFoundError), e2).
Proof.
  apply (inspection_creates_empty_database "testDB" "testStore"
           (OpSet nkia (KString "init")) new_browser); by vm_compute.
Defined.

(** ** Deleting a database *)

Lemma deleteDB_unfold dbName e :
  deleteDB dbName e =
    if supported e then
      match pending_fault e with
      | Some c => (Rejected c, past_request e)
      | None =>
          if has_open_connection e dbName then (Pending, past_request e)
          else (Resolved JUndefined,
                set_databases (delete dbName (databases e)) (past_request e))
      end
    else (Rejected ReferenceError, e).
Proof.
  unfold deleteDB, new_Promise, indexedDB_deleteDatabase. cbn [fst snd].
  destruct (supported e); cbn [negb]; [|reflexivity].
  destruct (pending_fault e); cbn [fire del_onerror del_onsuccess]; [reflexivity|].
  change (has_open_connection (past_request e) dbName)
    with (has_open_connection e dbName).
  by destruct (has_open_connection e dbName).
Qed.

(** X14.  [deleteDB] on a database no connection is open to resolves with
    [undefined] when the environment does not fail it; the database is gone
    (a database that was not there is no error), every other database and
    every connection handle is as it was.  An inspection that follows finds
    no database and creates one at version [1]. *)
Theorem deleteDB_removes_database (dbName : string) (e : Engine) :
  supported e = true →
  quiet 2 e →
  has_open_connection e dbName = false →
  ∃ e1 e2,
    deleteDB dbName e = (Resolved JUndefined, e1) ∧
    databases e1 = delete dbName (databases e) ∧
    handles e1 = handles e ∧
    getCurrentDBVersion dbName e1 = (Resolved 1, e2).
Proof.
  intros Hs Hq Hopen. apply quiet_S in Hq as [Hf1 Hq]. apply quiet_S in Hq as [Hf2 _].
  rewrite deleteDB_unfold, Hs, Hf1, Hopen.
  eexists _, _. split; [reflexivity|]. split; [reflexivity|]. split; [reflexivity|].
  rewrite getCurrentDBVersion_unfold. cbn [supported set_databases past_request set_faults].
  rewrite Hs.
  change (pending_fault _) with (pending_fault (past_request e)). rewrite Hf2.
  change (has_open_connection _ dbName) with (has_open_connection e dbName).
  rewrite Hopen, andb_false_r.
  unfold current_version, stored_version. cbn [databases set_databases].
  by rewrite lookup_delete_eq.
Qed.

Lemma deleteDB_removes_database_witness :
  ∃ e1 e2,
    deleteDB "testDB" after_migration = (Resolved JUndefined, e1) ∧
    databases e1 = delete "testDB" (databases after_migration) ∧
    handles e1 = handles after_migration ∧
    getCurrentDBVersion "testDB" e1 = (Resolved 1, e2).
Proof.
  apply (deleteDB_removes_database "testDB" after_migration); by vm_compute.
Defined.

(** X15.  While a connection to the database is open, [deleteDB] does not
    settle: the engine waits for the connection to close, nothing closes it,
    and the module attaches no handler to [blocked].  The database stays.  A
    connection is left open by [openDB] itself and by every data operation
    whose request fails. *)
Theorem deleteDB_waits_for_open_connection (dbName : string) (e : Engine) :
  supported e = true →
  pending_fault e = None →
  has_open_connection e dbName = true →
  ∃ e', deleteDB dbName e = (Pending, e') ∧ databases e' = databases e.
Proof.
  intros Hs Hf Hopen. rewrite deleteDB_unfold, Hs, Hf, Hopen. by eexists.
Qed.

Lemma deleteDB_waits_for_open_connection_witness :
  let e := (set "testDB" "testStore" nkia (KString "init")
              (set_faults [None; Some (DOMException QuotaExceededError)] with_store)).2 in
  ∃ e', deleteDB "testDB" e = (Pending, e') ∧ databases e' = databases e.
Proof.
  apply (deleteDB_waits_for_open_connection "testDB"
           (set "testDB" "testStore" nkia (KString "init")
              (set_faults [None; Some (DOMException QuotaExceededError)] with_store)).2);
    by vm_compute.
Defined.

(** ** More on the migration *)

(** X16.  While a connection to the database is open, [addObjectStore] does
    not settle either: the inspection goes through, the open at the next
    version waits for the connection to close.  No database is changed. *)
Theorem addObjectStore_waits_for_open_connection (dbName newStoreName : string)
    (item : JsValue) (key : IDBValidKey) (e : Engine) :
  supported e = true →
  quiet 2 e →
  stored_version e dbName ≠ 0 →
  version_in_range (Some (stored_version e dbName + 1)) = true →
  has_open_connection e dbName = true →
  ∃ e',
    addObjectStore dbName newStoreName item key e = (Pending, e') ∧
    databases e' = databases e.
Proof.
  intros Hs Hq Hv Hrange Hopen.
  apply quiet_S in Hq as [Hf1 Hq]. apply quiet_S in Hq as [Hf2 _].
  rewrite addObjectStore_unfold by done. cbv zeta.
  assert (current_version e dbName = stored_version e dbName) as ->.
  { unfold current_version. destruct (_ =? 0) eqn:E; [lia|done]. }
  rewrite Hrange.
  change (pending_fault (inspected dbName e)) with (pending_fault (past_request e)).
  rewrite Hf2, Hopen. eexists. split; [reflexivity|].
  unfold inspected. cbn [databases past_request set_faults].
  destruct (_ =? 0) eqn:E; [lia|done].
Qed.

Lemma addObjectStore_waits_for_open_connection_witness :
  let e := (openDB "testDB" "testStore" None with_store).2 in
  ∃ e',
    addObjectStore "testDB" "newStore" nkia (KString "init") e = (Pending, e') ∧
    databases e' = databases e.
Proof.
  apply (addObjectStore_waits_for_open_connection "testDB" "newStore" nkia
           (KString "init") (openDB "testDB" "testStore" None with_store).2);
    by vm_compute.
Defined.

Lemma databases_migrated dbName newStoreName item key e :
  databases (migrated dbName newStoreName item key e) =
    <[dbName :=
        {| version := current_version e dbName + 1;
           objectStores :=
             <[newStoreName :=
                 <[key := item]> (default ∅ (stored_schema e dbName !! newStoreName))]>
               (stored_schema e dbName) |}]>
      (databases e).
Proof.
  unfold migrated, completed, close, commit.
  cbn [databases set_databases set_handles conn_name past_request set_faults opened].
  rewrite stored_version_inspected.
  destruct (_ <? _) eqn:E; [|lia].
  rewrite alter_insert_eq. cbn [version objectStores].
  rewrite stored_schema_inspected, insert_ensure_store.
  unfold inspected. cbn [databases].
  destruct (_ =? 0); [|done]. by rewrite insert_insert_eq.
Qed.

(** X17.  What [addObjectStore] has done when its promise resolves: it
    resolves with the seed key; the database is at the version after the one
    it was found at ([2] for a database that did not exist); the named store
    holds what it held before, nothing when it is new, and the seed; the
    other stores and the other databases are untouched; the two connections
    it opened are closed. *)
Theorem addObjectStore_effect (dbName newStoreName : string) (item : JsValue)
    (key : IDBValidKey) (e e' : Engine) (r : JsValue) :
  addObjectStore dbName newStoreName item key e = (Resolved r, e') →
  r = key_value key ∧
  databases e' =
    <[dbName :=
        {| version := current_version e dbName + 1;
           objectStores :=
             <[newStoreName :=
                 <[key := item]> (default ∅ (stored_schema e dbName !! newStoreName))]>
               (stored_schema e dbName) |}]>
      (databases e) ∧
  handles e' = handles e ++ [(dbName, 1%nat); (dbName, 1%nat)].
Proof.
  intros H. apply addObjectStore_resolved in H as (_ & _ & _ & -> & ->).
  split; [done|]. split; [apply databases_migrated|].
  unfold migrated, completed, close, commit.
  cbn [handles set_databases set_handles conn_id past_request set_faults opened
       inspected].
  replace (S (length (handles e))) with (length (handles e ++ [(dbName, 1%nat)]))
    by (rewrite length_app; cbn; lia).
  rewrite alter_last_handle. by rewrite <- app_assoc.
Qed.

Lemma addObjectStore_effect_witness :
  let e' := (addObjectStore "testDB" "newStore" nkia (KString "init") new_browser).2 in
  JString "init" = key_value (KString "init") ∧
  databases e' =
    <[ "testDB" :=
        {| version := current_version new_browser "testDB" + 1;
           objectStores :=
             <[ "newStore" :=
                 <[KString "init" := nkia]>
                   (default ∅ (stored_schema new_browser "testDB" !! "newStore"))]>
               (stored_schema new_browser "testDB") |}]>
      (databases new_browser) ∧
  handles e' = handles new_browser ++ [("testDB", 1%nat); ("testDB", 1%nat)].
Proof.
  apply (addObjectStore_effect "testDB" "newStore" nkia (KString "init") new_browser
           (addObjectStore "testDB" "newStore" nkia (KString "init") new_browser).2
           (JString "init")).
  by vm_compute.
Defined.

(** X18.  [addObjectStore] does not undo the migration when the seed cannot
    be written.  With an item the engine cannot clone the promise rejects
    with [DataCloneError], but the version has gone up, the store exists, and
    the connection of the upgrade is left open. *)
Theorem addObjectStore_keeps_failed_migration (dbName newStoreName : string)
    (item : JsValue) (key : IDBValidKey) (e : Engine) :
  supported e = true →
  quiet 2 e →
  has_open_connection e dbName = false →
  version_in_range (Some (current_version e dbName + 1)) = true →
  serializable item = false →
  ∃ e',
    addObjectStore dbName newStoreName item key e =
      (Rejected (DOMException DataCloneError), e') ∧
    stored_version e' dbName = current_version e dbName + 1 ∧
    is_Some (stored_records e' dbName newStoreName) ∧
    has_open_connection e' dbName = true.
Proof.
  intros Hs Hq Hopen Hrange Hser.
  apply quiet_S in Hq as [Hf1 Hq]. apply quiet_S in Hq as [Hf2 _].
  rewrite addObjectStore_unfold by done. cbv zeta.
  rewrite Hrange.
  change (pending_fault (inspected dbName e)) with (pending_fault (past_request e)).
  rewrite Hf2, Hopen, Hser.
  eexists. split; [reflexivity|]. split; [|split].
  - apply stored_version_opened. rewrite stored_version_inspected. lia.
  - rewrite stored_records_opened_upgrade; [by eexists|].
    rewrite stored_version_inspected. lia.
  - unfold has_open_connection, opened. cbn [handles].
    rewrite existsb_app. cbn [existsb]. unfold is_open at 2. cbn [fst snd].
    rewrite !bool_decide_eq_true_2 by done. by rewrite orb_true_r.
Qed.

Lemma addObjectStore_keeps_failed_migration_witness :
  ∃ e',
    addObjectStore "testDB" "newStore" JFunction (KString "init") with_store =
      (Rejected (DOMException DataCloneError), e') ∧
    stored_version e' "testDB" = current_version with_store "testDB" + 1 ∧
    is_Some (stored_records e' "testDB" "newStore") ∧
    has_open_connection e' "testDB" = true.
Proof.
  apply (addObjectStore_keeps_failed_migration "testDB" "newStore" JFunction
           (KString "init") with_store); by vm_compute.
Defined.

(** ** Items the engine cannot clone *)

(** X19.  [set] with an item the engine cannot clone rejects with
    [DataCloneError]: [put] throws inside the executor of the promise.
    Nothing is written, and the connection is left open. *)
Theorem set_unclonable_rejects (dbName storeName : string) (item : JsValue)
    (key : IDBValidKey) (e e1 : Engine) (db : IDBDatabase) :
  openDB dbName storeName None e = (Resolved db, e1) →
  is_Some (stored_records e1 dbName storeName) →
  serializable item = false →
  set dbName storeName item key e = (Rejected (DOMException DataCloneError), e1) ∧
  close_count e1 (conn_id db) = Some 0%nat.
Proof.
  intros Ho [recs Hr] Hser.
  destruct (openDB_resolved _ _ _ _ _ _ Ho) as (_ & _ & _ & _ & _ & -> & ->).
  split; [|exact (opened_close_count dbName storeName _ e)].
  unfold set. rewrite (await_resolved _ _ _ _ _ Ho).
  erewrite transactionPromise_unfold; [|apply opened_close_count|exact Hr].
  cbv zeta. cbn [put violation]. by rewrite Hser.
Qed.

Lemma set_unclonable_rejects_witness :
  let e1 := opened "testDB" "testStore" 1 with_store in
  set "testDB" "testStore" (JArray [JNumber 1; JFunction]) (KString "init") with_store =
    (Rejected (DOMException DataCloneError), e1) ∧
  close_count e1 0 = Some 0%nat.
Proof.
  apply (set_unclonable_rejects "testDB" "testStore" (JArray [JNumber 1; JFunction])
           (KString "init") with_store (opened "testDB" "testStore" 1 with_store)
           {| conn_id := 0; conn_name := "testDB"; conn_version := 1 |}).
  - by vm_compute.
  - eexists. by vm_compute.
  - by vm_compute.
Defined.

(** X20.  [update] with an item the engine cannot clone does not settle at
    all: its [put] is called in the [success] handler of the read, where the
    exception it throws reaches neither [reject] nor any handler.  The
    transaction aborts; nothing is written, and the connection is left
    open. *)
Theorem update_unclonable_never_settles (dbName storeName : string) (item : JsValue)
    (key : IDBValidKey) (e e1 : Engine) (db : IDBDatabase) :
  openDB dbName storeName None e = (Resolved db, e1) →
  is_Some (stored_records e1 dbName storeName) →
  pending_fault e1 = None →
  serializable item = false →
  update dbName storeName item key e = (Pending, past_request e1) ∧
  close_count (past_request e1) (conn_id db) = Some 0%nat.
Proof.
  intros Ho [recs Hr] Hf Hser.
  destruct (openDB_resolved _ _ _ _ _ _ Ho) as (_ & _ & _ & _ & _ & -> & ->).
  split; [|exact (opened_close_count dbName storeName _ e)].
  change (update dbName storeName item key)
    with (run dbName storeName (OpUpdate item key)).
  rewrite run_eq, (await_resolved _ _ _ _ _ Ho).
  erewrite update_transaction_unfold; [|apply opened_close_count|exact Hr].
  by rewrite Hf, Hser.
Qed.

Lemma update_unclonable_never_settles_witness :
  let e1 := opened "testDB" "testStore" 1 with_store in
  update "testDB" "testStore" JFunction (KString "init") with_store =
    (Pending, past_request e1) ∧
  close_count (past_request e1) 0 = Some 0%nat.
Proof.
  apply (update_unclonable_never_settles "testDB" "testStore" JFunction
           (KString "init") with_store (opened "testDB" "testStore" 1 with_store)
           {| conn_id := 0; conn_name := "testDB"; conn_version := 1 |}).
  - by vm_compute.
  - eexists. by vm_compute.
  - by vm_compute.
  - by vm_compute.
Defined.

(** ** A platform without the engine *)

(** X21.  Where ['indexedDB' in window] is false, [openDB] and with it every
    data operation rejects with the error of the guard,
    ["This browser doesn't support indexedDB"], and touches nothing.
    [getCurrentDBVersion], [addObjectStore] and [deleteDB] do not pass the
    guard: they reach for the missing global and reject with a
    [ReferenceError]. *)
Theorem unsupported_platform (dbName storeName : string) (op : Operation)
    (item : JsValue) (key : IDBValidKey) (v : option Z) (e : Engine) :
  supported e = false →
  openDB dbName storeName v e =
    (Rejected (Error "This browser doesn't support indexedDB"), e) ∧
  run dbName storeName op e =
    (Rejected (Error "This browser doesn't support indexedDB"), e) ∧
  getCurrentDBVersion dbName e = (Rejected ReferenceError, e) ∧
  addObjectStore dbName storeName item key e = (Rejected ReferenceError, e) ∧
  deleteDB dbName e = (Rejected ReferenceError, e).
Proof.
  intros Hs. split; [by apply openDB_unsupported|]. split; [|split; [|split]].
  - rewrite run_eq. apply await_rejected. by apply openDB_unsupported.
  - by rewrite getCurrentDBVersion_unfold, Hs.
  - unfold addObjectStore. apply await_rejected.
    by rewrite getCurrentDBVersion_unfold, Hs.
  - by rewrite deleteDB_unfold, Hs.
Qed.

Lemma unsupported_platform_witness :
  let e := {| supported := false; databases := ∅; handles := []; faults := [] |} in
  openDB "testDB" "testStore" None e =
    (Rejected (Error "This browser doesn't support indexedDB"), e) ∧
  run "testDB" "testStore" OpGetAll e =
    (Rejected (Error "This browser doesn't support indexedDB"), e) ∧
  getCurrentDBVersion "testDB" e = (Rejected ReferenceError, e) ∧
  addObjectStore "testDB" "testStore" nkia (KString "init") e =
    (Rejected ReferenceError, e) ∧
  deleteDB "testDB" e = (Rejected ReferenceError, e).
Proof.
  apply (unsupported_platform "testDB" "testStore" OpGetAll nkia (KString "init") None
           {| supported := false; databases := ∅; handles := []; faults := [] |}).
  reflexivity.
Defined.

(** ** Operations that do not resolve *)

Lemma keeps_records_same e e' : databases e' = databases e → keeps_records e e'.
Proof. intros H name s recs. unfold stored_records. by rewrite H. Qed.

Lemma keeps_records_opened dbName storeName n e :
  keeps_records e (opened dbName storeName n e).
Proof.
  intros name s recs. unfold stored_records, opened. cbn [databases].
  destruct (stored_version e dbName <? n); [|done].
  destruct (decide (name = dbName)) as [->|Hne]; [|by rewrite lookup_insert_ne].
  rewrite lookup_insert_eq. unfold stored_schema.
  destruct (databases e !! dbName) as [d|]; cbn; [|done].
  intros Hs. unfold ensure_store, contains, objectStoreNames.
  case_bool_decide as Hin; [done|].
  rewrite lookup_insert_ne; [done|].
  intros <-. apply Hin, elem_of_dom. by eexists.
Qed.

Lemma openDB_keeps_records dbName storeName v e :
  keeps_records e (openDB dbName storeName v e).2.
Proof.
  destruct (supported e) eqn:Hs.
  - rewrite openDB_unfold by done. cbv zeta.
    case_outcome; cbn [snd];
      (by apply keeps_records_same) || apply keeps_records_opened.
  - rewrite openDB_unsupported by done. by apply keeps_records_same.
Qed.

(** On an open connection, the second half of an operation changes the
    databases only when its promise resolves. *)
Lemma transact_unresolved storeName op db e p e' :
  close_count e (conn_id db) = Some 0%nat →
  transact storeName op db e = (p, e') →
  (∀ r, p ≠ Resolved r) →
  databases e' = databases e.
Proof.
  intros Hc.
  destruct (stored_records e (conn_name db) storeName) as [recs|] eqn:Hr;
    [|rewrite transact_no_store by done; by intros [= <- <-]].
  destruct op;
    rewrite ?(update_transaction_unfold _ _ _ Hc _ _ recs) by done;
    cbn [transact];
    rewrite ?(transactionPromise_unfold _ _ _ Hc _ _ recs) by done;
    cbv zeta; cbn [put get getAll_ delete_ clear_ violation];
    case_outcome; intros [= <- <-] Hp; try done; by destruct (Hp _ eq_refl).
Qed.

(** X22.  A data operation whose promise does not resolve, rejected or left
    pending, has written nothing: every store that was there still holds the
    records it held.  (The database and an empty store of the given name may
    have been created by the open.) *)
Theorem unresolved_operation_writes_nothing (dbName storeName : string)
    (op : Operation) (e e' : Engine) (p : Promise JsValue) :
  run dbName storeName op e = (p, e') →
  (∀ r, p ≠ Resolved r) →
  keeps_records e e'.
Proof.
  rewrite run_eq. unfold await.
  pose proof (openDB_keeps_records dbName storeName None e) as Hopen.
  destruct (openDB dbName storeName None e) as [[|db|c] e1] eqn:Ho; cbn [snd] in Hopen.
  - by intros [= <- <-].
  - intros Ht Hp.
    destruct (openDB_resolved _ _ _ _ _ _ Ho) as (_ & _ & _ & _ & _ & -> & ->).
    apply transact_unresolved in Ht; [|apply opened_close_count|done].
    intros name s recs Hr. apply Hopen in Hr.
    unfold stored_records in *. by rewrite Ht.
  - by intros [= <- <-].
Qed.

Lemma unresolved_operation_writes_nothing_witness :
  let e := set_faults [None; None; Some (DOMException QuotaExceededError)]
             after_first_set in
  keeps_records e
    (update "testDB" "testStore" (JString "nkia222") (KString "init") e).2.
Proof.
  apply (unresolved_operation_writes_nothing "testDB" "testStore"
           (OpUpdate (JString "nkia222") (KString "init"))
           (set_faults [None; None; Some (DOMException QuotaExceededError)]
              after_first_set)
           _ (Rejected (DOMException QuotaExceededError))).
  - by vm_compute.
  - done.
Defined.

(** ** [openDB] with a version *)

(** X23.  A version outside the range of the interface is not replaced by
    the default: [openDB] with the version [0], a negative one or one above
    the largest safe integer rejects with a [TypeError], thrown by
    [indexedDB.open] inside the executor, and touches nothing. *)
Theorem openDB_version_out_of_range (dbName storeName : string) (n : Z) (e : Engine) :
  supported e = true →
  n < 1 ∨ MAX_SAFE_INTEGER < n →
  openDB dbName storeName (Some n) e = (Rejected TypeError, e).
Proof.
  intros Hs Hn. rewrite openDB_unfold by done. cbn [default from_option id].
  cbv zeta. replace (version_in_range (Some n)) with false; [done|].
  symmetry. cbn [version_in_range]. lia.
Qed.

Lemma openDB_version_out_of_range_witness :
  openDB "testDB" "testStore" (Some 0) with_store = (Rejected TypeError, with_store).
Proof.
  apply (openDB_version_out_of_range "testDB" "testStore" 0 with_store).
  - reflexivity.
  - left. reflexivity.
Defined.

(** X24.  [openDB] with a version below the stored one rejects with
    [VersionError]; no connection is handed out and no database is
    changed. *)
Theorem openDB_below_stored_version (dbName storeName : string) (n : Z) (e : Engine) :
  supported e = true →
  pending_fault e = None →
  1 ≤ n < stored_version e dbName →
  stored_version e dbName ≤ MAX_SAFE_INTEGER →
  ∃ e',
    openDB dbName storeName (Some n) e = (Rejected (DOMException VersionError), e') ∧
    databases e' = databases e ∧ handles e' = handles e.
Proof.
  intros Hs Hf Hn Hmax. rewrite openDB_unfold by done. cbn [default from_option id].
  cbv zeta. replace (version_in_range (Some n)) with true;
    [|symmetry; cbn [version_in_range]; lia].
  rewrite Hf. destruct (n <? stored_version e dbName) eqn:E; [|lia].
  by eexists.
Qed.

Lemma openDB_below_stored_version_witness :
  ∃ e',
    openDB "testDB" "newStore" (Some 1) after_migration =
      (Rejected (DOMException VersionError), e') ∧
    databases e' = databases after_migration ∧ handles e' = handles after_migration.
Proof.
  apply (openDB_below_stored_version "testDB" "newStore" 1 after_migration);
    by vm_compute.
Defined.

(** X25.  [openDB] with a version above the stored one, on a database no
    connection is open to, resolves with a connection at that version and
    leaves it open; the database is at the new version; the named store
    exists, with the records it had or empty when it is new; every store
    that was there holds the records it held. *)
Theorem openDB_upgrade (dbName storeName : string) (n : Z) (e : Engine) :
  supported e = true →
  pending_fault e = None →
  stored_version e dbName < n →
  1 ≤ n ≤ MAX_SAFE_INTEGER →
  has_open_connection e dbName = false →
  ∃ db e',
    openDB dbName storeName (Some n) e = (Resolved db, e') ∧
    conn_version db = n ∧
    close_count e' (conn_id db) = Some 0%nat ∧
    stored_version e' dbName = n ∧
    stored_records e' dbName storeName =
      Some (default ∅ (stored_schema e dbName !! storeName)) ∧
    keeps_records e e'.
Proof.
  intros Hs Hf Hlt Hn Hopen. rewrite openDB_unfold by done.
  cbn [default from_option id]. cbv zeta.
  replace (version_in_range (Some n)) with true;
    [|symmetry; cbn [version_in_range]; lia].
  rewrite Hf, Hopen, andb_false_r.
  destruct (n <? stored_version e dbName) eqn:E; [lia|].
  eexists _, _. split; [reflexivity|]. split; [reflexivity|]. split; [|split; [|split]].
  - apply opened_close_count.
  - apply stored_version_opened. lia.
  - by apply stored_records_opened_upgrade.
  - apply keeps_records_opened.
Qed.

Lemma openDB_upgrade_witness :
  ∃ db e',
    openDB "testDB" "testStore" (Some 5) after_first_set = (Resolved db, e') ∧
    conn_version db = 5 ∧
    close_count e' (conn_id db) = Some 0%nat ∧
    stored_version e' "testDB" = 5 ∧
    stored_records e' "testDB" "testStore" =
      Some (default ∅ (stored_schema after_first_set "testDB" !! "testStore")) ∧
    keeps_records after_first_set e'.
Proof.
  apply (openDB_upgrade "testDB" "testStore" 5 after_first_set); by vm_compute.
Defined.
